(** * plotRaster2.py: the raster plot of cell spiking

    A shallow embedding of [plotRaster] (src/plotRaster2.py).  The Python
    function is dynamically typed, reads mutable containers that its caller
    owns, looks names up in the module's global namespace at run time and
    drives a plotting back end.  The embedding keeps all four:

    - Python values are a small universe [value]; lists, tuples and dicts
      live in a store and are reached through references, so that two names
      can alias one container;
    - the body is written in a state-and-exception monad [M] over a [world]
      made of that store and of the ordered trace of calls made to the
      plotting back end;
    - a name that the function neither takes as a parameter nor assigns is
      looked up in the module's globals, and raises [NameError] when it is
      not bound there;
    - each block of statements of the source is one definition, named after
      the comment that heads it in the source, and [plotRaster] is their
      sequence in source order.

    What the file imports from elsewhere is kept apart from what it does:
    the data source [sim.analysis.prepareRaster], the ambient [sim] and the
    cell tags are parameters; the plotting back end records its calls.  The
    [@exception] decorator comes from [..analysis.utils] and is not
    embedded: [plotRaster] below is the decorated function's body.

    The spec describes the data half of the body as a normalizer.  It is
    [normalize] here: the data blocks of [plotRaster], in source order,
    without the calls to the back end that stand between them. *)

From stdpp Require Import base numbers strings list gmap pretty.
From Stdlib Require Import QArith.QArith_base Sorting.Sorted Sorting.Permutation.

Set Default Proof Using "Type".
Local Open Scope Z_scope.

(** ** Values, containers, exceptions *)

Abbreviation loc := nat (only parsing).

(** Floats are carried as rationals: the function never computes on a spike
    time, it only moves it around. [VExt] is an object owned by a
    collaborator (the sim object, a module, a figure, an axis). *)
Inductive value : Type :=
| VNone
| VBool (b : bool)
| VInt (n : Z)
| VFloat (q : Q)
| VStr (s : string)
| VExt (name : string)
| VRef (l : loc).

(** A dict keeps its items in insertion order; only string keys are
    modelled. *)
Inductive object : Type :=
| OList (xs : list value)
| OTuple (xs : list value)
| ODict (items : list (string * value)).

(** [Unmodelled] marks Python behaviour outside the modelled universe (for
    instance iterating a string of indices, or indices that are not ints);
    it is never a statement about what Python does there. *)
Inductive exn : Type :=
| NameError (name : string)
| KeyError (key : string)
| IndexError
| TypeError (msg : string)
| AttributeError (attr : string)
| Unmodelled (what : string).

(** A legend handle, [mpatches.Patch(color=..., label=...)]. *)
Record patch : Type := Patch { color : value; label : string }.

(** Modelled from the spec: the Renderer collaborator ([ScatterPlotter] of
    [.plotter], the matplotlib axis and [plt]) is not part of this file; the
    spec gives its operations by signature only (create-figure, get-axis,
    scatter, vertical line, legend, save, show).  Each call is recorded, in
    order, with the arguments the source passes. *)
Inductive call : Type :=
| NewPlotter
| CreateFig
| GetAxis (axis : value)
| SetAttributes (title xlabel ylabel : value)
| Scatter (x y s marker linewidth : value)
| Vlines (x : value) (ymin : Z) (ymax : nat) (colors linestyles : string) (linewidth : value)
| Legend (handles : list patch) (legendKwargs : list (string * value))
| SetRcParam (param : string) (v : value)
| Show
| SaveFig (fig filename overwrite : value).

Record world : Type := World { heap : list object; rendered : list call }.

(** ** The monad of the function body *)

Definition M (A : Type) : Type := world → (exn + A) * world.

Definition ret {A} (a : A) : M A := λ w, (inr a, w).

Definition raise {A} (e : exn) : M A := λ w, (inl e, w).

Definition bind {A B} (m : M A) (k : A → M B) : M B :=
  λ w, match m w with
       | (inr a, w') => k a w'
       | (inl e, w') => (inl e, w')
       end.

Declare Scope py_scope.
Delimit Scope py_scope with py.
Notation "x <- c ;; k" := (bind c (λ x, k))
  (at level 100, c at next level, right associativity) : py_scope.
Notation "c ;;; k" := (bind c (λ _, k))
  (at level 100, right associativity) : py_scope.
Local Open Scope py_scope.

Definition lift {A} (r : exn + A) : M A := λ w, (r, w).

(** [for x in xs: body], stopping at the first exception. *)
Fixpoint forM_ {A} (xs : list A) (body : A → M unit) : M unit :=
  match xs with
  | [] => ret tt
  | x :: xs' => body x ;;; forM_ xs' body
  end.

(** A list comprehension [[f x for x in xs]]. *)
Fixpoint mapM {A B} (f : A → M B) (xs : list A) : M (list B) :=
  match xs with
  | [] => ret []
  | x :: xs' => y <- f x ;; ys <- mapM f xs' ;; ret (y :: ys)
  end.

(** ** Store and trace primitives *)

(** A new container: Python allocates, nothing that exists is touched. *)
Definition alloc (o : object) : M value :=
  λ w, (inr (VRef (length (heap w))), World (heap w ++ [o]) (rendered w)).

Definition emit (c : call) : M unit :=
  λ w, (inr tt, World (heap w) (rendered w ++ [c])).

Definition read (l : loc) : M object :=
  λ w, match heap w !! l with
       | Some o => (inr o, w)
       | None => (inl (Unmodelled "dangling reference"), w)
       end.

(** Name lookup in the module's global namespace [G]. *)
Definition load_global (G : gmap string value) (x : string) : M value :=
  match G !! x with
  | Some v => ret v
  | None => raise (NameError x)
  end.

(** A local of the function that is assigned on some paths only. *)
Definition load_local (x : string) (v : option value) : M value :=
  match v with
  | Some v => ret v
  | None => raise (NameError x)
  end.

(** ** Python operations used by the body *)

Definition is_none (v : value) : bool :=
  match v with VNone => true | _ => false end.

(** [d.get(k, default)] and [k in d] on an insertion-ordered dict. *)
Fixpoint assoc (k : string) (items : list (string * value)) : option value :=
  match items with
  | [] => None
  | (k', v) :: items' => if String.eqb k k' then Some v else assoc k items'
  end.

(** [isinstance(v, dict)] *)
Definition is_dict (v : value) : M bool :=
  match v with
  | VRef l => o <- read l ;;
              ret (match o with ODict _ => true | _ => false end)
  | _ => ret false
  end.

(** [d[k]] for a dict [d] and a string key. *)
Definition getitem (v : value) (k : string) : M value :=
  match v with
  | VRef l => o <- read l ;;
      match o with
      | ODict items =>
          match assoc k items with
          | Some x => ret x
          | None => raise (KeyError k)
          end
      | _ => raise (TypeError "indices must be integers")
      end
  | _ => raise (TypeError "not subscriptable")
  end.

(** [k in d] for a dict [d]. *)
Definition contains (v : value) (k : string) : M bool :=
  match v with
  | VRef l => o <- read l ;;
      match o with
      | ODict items => ret (bool_decide (is_Some (assoc k items)))
      | _ => raise (Unmodelled "membership in a sequence")
      end
  | _ => raise (TypeError "not iterable")
  end.

(** [v[i]] for a non-negative position [i]. *)
Definition subscript (v : value) (i : nat) : M value :=
  match v with
  | VRef l => o <- read l ;;
      match o with
      | OList xs | OTuple xs =>
          match xs !! i with
          | Some x => ret x
          | None => raise IndexError
          end
      | ODict _ => raise (KeyError (pretty i))
      end
  | VStr s =>
      match String.get i s with
      | Some c => ret (VStr (String c EmptyString))
      | None => raise IndexError
      end
  | VExt _ => raise (Unmodelled "subscript of a collaborator object")
  | _ => raise (TypeError "not subscriptable")
  end.

(** [len(v)] *)
Definition py_len (v : value) : M nat :=
  match v with
  | VRef l => o <- read l ;;
      ret (match o with
           | OList xs | OTuple xs => length xs
           | ODict items => length items
           end)
  | VStr s => ret (String.length s)
  | VExt _ => raise (Unmodelled "len of a collaborator object")
  | _ => raise (TypeError "has no len()")
  end.

(** Truth value of [v] in [if v:]. *)
Definition truthy (v : value) : M bool :=
  match v with
  | VNone => ret false
  | VBool b => ret b
  | VInt n => ret (negb (n =? 0))
  | VFloat q => ret (negb (Qnum q =? 0))
  | VStr s => ret (negb (String.eqb s EmptyString))
  | VExt _ => ret true
  | VRef l => o <- read l ;;
      ret (match o with
           | OList xs | OTuple xs => negb (bool_decide (xs = []))
           | ODict items => negb (bool_decide (items = []))
           end)
  end.

(** The items of a list or tuple of ints, as iteration yields them.  Cell
    indices are ints; any other element is outside the model. *)
Fixpoint as_ints (xs : list value) : option (list Z) :=
  match xs with
  | [] => Some []
  | VInt n :: xs' => cons n <$> as_ints xs'
  | _ => None
  end.

Definition int_items (v : value) : M (list Z) :=
  match v with
  | VRef l => o <- read l ;;
      match o with
      | OList xs | OTuple xs =>
          match as_ints xs with
          | Some zs => ret zs
          | None => raise (Unmodelled "an index that is not an int")
          end
      | ODict _ => raise (Unmodelled "iterating the keys of a dict")
      end
  | VStr _ => raise (Unmodelled "iterating a string")
  | VExt _ => raise (Unmodelled "iterating a collaborator object")
  | _ => raise (TypeError "not iterable")
  end.

(** [set(xs)] for ints. *)
Definition py_set (zs : list Z) : gset Z := list_to_set zs.

(** [list(s)]: Python fixes no iteration order for a set; the model picks
    one, and every statement about it is up to permutation. *)
Definition set_to_list (s : gset Z) : list Z := elements s.

(** [sorted(xs, key=...)]: a stable sort.  [lt a b] is the comparison
    [a < b] on the keys; an element stays behind every earlier element it
    is not smaller than. *)
Fixpoint insert_sorted {A} (lt : A → A → bool) (x : A) (s : list A) : list A :=
  match s with
  | [] => [x]
  | y :: s' => if lt y x then y :: insert_sorted lt x s' else x :: y :: s'
  end.

Fixpoint stable_sort {A} (lt : A → A → bool) (xs : list A) : list A :=
  match xs with
  | [] => []
  | x :: xs' => insert_sorted lt x (stable_sort lt xs')
  end.

(** [sorted(zs)] for ints. *)
Definition py_sorted (zs : list Z) : list Z := stable_sort Z.ltb zs.

(** [v[:i]] *)
Definition slice_to (v : value) (i : nat) : M (list value) :=
  match v with
  | VRef l => o <- read l ;;
      match o with
      | OList xs | OTuple xs => ret (take i xs)
      | ODict _ => raise (TypeError "unhashable type: 'slice'")
      end
  | VStr _ => raise (Unmodelled "slice of a string")
  | VExt _ => raise (Unmodelled "slice of a collaborator object")
  | _ => raise (TypeError "not subscriptable")
  end.

Definition sum_list_Z (zs : list Z) : Z := foldr Z.add 0 zs.

(** [sum(xs)] for ints. *)
Definition py_sum (xs : list value) : M Z :=
  match as_ints xs with
  | Some zs => ret (sum_list_Z zs)
  | None => raise (Unmodelled "sum of values that are not ints")
  end.

(** [x in range(a, b)] for ints. *)
Definition in_range (x a b : Z) : bool := (a <=? x) && (x <? b).

(** [v == 'gid'] *)
Definition is_str (v : value) (s : string) : bool :=
  match v with VStr s' => String.eqb s' s | _ => false end.

(** Keys of [sorted(..., key=...)]: numbers compare with numbers, strings
    with strings. *)
Definition num (v : value) : option Q :=
  match v with
  | VInt n => Some (inject_Z n)
  | VFloat q => Some q
  | VBool b => Some (inject_Z (if b then 1 else 0))
  | _ => None
  end.

Definition str (v : value) : option string :=
  match v with VStr s => Some s | _ => None end.

Definition Qltb (x y : Q) : bool := negb (Qle_bool y x).

Fixpoint keyed {K} (f : value → option K) (kxs : list (value * Z)) : option (list (K * Z)) :=
  match kxs with
  | [] => Some []
  | (k, x) :: kxs' =>
      match f k with
      | Some k' => cons (k', x) <$> keyed f kxs'
      | None => None
      end
  end.

Definition is_object (v : value) : bool :=
  match v with VRef _ | VExt _ => true | _ => false end.

(** The elements [x] of the pairs [(key x, x)] in the order
    [sorted(xs, key=key)] gives them.  One element or none is never
    compared. *)
Definition sorted_by_key (kxs : list (value * Z)) : exn + list Z :=
  match kxs with
  | [] | [_] => inr (snd <$> kxs)
  | _ =>
      match keyed num kxs with
      | Some l => inr (snd <$> stable_sort (λ a b, Qltb a.1 b.1) l)
      | None =>
          match keyed str kxs with
          | Some l => inr (snd <$> stable_sort (λ a b, String.ltb a.1 b.1) l)
          | None =>
              if existsb is_object (fst <$> kxs)
              then inl (Unmodelled "comparison of objects")
              else inl (TypeError "'<' not supported")
          end
      end
  end.

(** [f'{pop} ({n})'] for a string [pop] and a count [n]. *)
Definition legend_label (pop : string) (n : nat) : string :=
  pop +:+ " (" +:+ pretty n +:+ ")".

(** ** The module *)

(** The names the module binds at import: its three imports, the
    conditional import of [mpatches], and [plotRaster] itself. *)
Definition module_globals (gui : bool) : gmap string value :=
  list_to_map
    ([("__gui__", VBool gui)] ++
     (if gui then [("mpatches", VExt "matplotlib.patches")] else []) ++
     [("exception", VExt "exception");
      ("loadData", VExt "loadData");
      ("ScatterPlotter", VExt "ScatterPlotter");
      ("plotRaster", VExt "plotRaster")]).

(** The parameters of [plotRaster]; [kwargs] collects the keyword arguments
    that are not parameters. *)
Module Arg.
Record t : Type := Make {
  rasterData : value;
  axis : value;
  timeRange : value;
  maxSpikes : value;
  orderBy : value;
  popRates : value;
  popNumCells : value;
  popLabels : value;
  popColors : value;
  syncLines : value;
  colorbyPhase : value;
  legend : value;
  colorList : value;
  orderInverse : value;
  returnPlotter : value;
  kwargs : list (string * value)
}.

(** The defaults of the signature. *)
Definition default : t :=
  {| rasterData := VNone; axis := VNone; timeRange := VNone;
     maxSpikes := VFloat (100000000 # 1); orderBy := VStr "gid";
     popRates := VBool true; popNumCells := VNone; popLabels := VNone;
     popColors := VNone; syncLines := VBool false; colorbyPhase := VNone;
     legend := VBool true; colorList := VNone; orderInverse := VBool false;
     returnPlotter := VBool false; kwargs := [] |}.
End Arg.

(** The raster data the body works on after its input is resolved. *)
Record raster : Type := Raster {
  spkTimes : value;
  spkInds : value;
  popNumCells : value;
  popLabels : value
}.

(** ** The body of [plotRaster] *)

Section PlotRaster.

(** The collaborators that are not part of this file are parameters:

    - [prepareRaster sim include timeRange maxSpikes orderBy] is
      [sim.analysis.prepareRaster(...)], free to do anything;
    - [ambient_sim] is what [from .. import sim] binds;
    - [cellTag sim x orderBy] is [sim.net.cells[x].tags[orderBy]], a read of
      the sim object;
    - [G] is the module's global namespace when the call is made. *)
Variable prepareRaster : value → value → value → value → value → M value.
Variable ambient_sim : value.
Variable cellTag : value → Z → value → exn + value.
Variable G : gmap string value.

(** Lines 213-220.  [# If there is no input data, get the data from the
    NetPyNE sim object].  The result pairs [rasterData] with the local
    [sim], which is bound on this path only. *)
Definition getData (p : Arg.t) : M (value * option value) :=
  if is_none (Arg.rasterData p) then
    let sim := match assoc "sim" (Arg.kwargs p) with
               | None => ambient_sim
               | Some s => s
               end in
    include <- alloc (OList [VStr "allCells"]) ;;
    rasterData <- prepareRaster sim include (Arg.timeRange p) (Arg.maxSpikes p) (Arg.orderBy p) ;;
    ret (rasterData, Some sim)
  else ret (Arg.rasterData p, None).

(** Lines 222-236.  [# If the input is a dictionary, use the data inside
    it] / [# Else it must be a list or a tuple]. *)
Definition useData (rasterData popNumCells popLabels : value) : M raster :=
  isdict <- is_dict rasterData ;;
  if (isdict : bool) then
    spkTimes <- getitem rasterData "spkTimes" ;;
    spkInds <- getitem rasterData "spkInds" ;;
    has <- contains rasterData "popNumCells" ;;
    popNumCells <- (if (has : bool) then getitem rasterData "popNumCells" else ret popNumCells) ;;
    has <- contains rasterData "popLabels" ;;
    popLabels <- (if (has : bool) then getitem rasterData "popLabels" else ret popLabels) ;;
    ret (Raster spkTimes spkInds popNumCells popLabels)
  else
    spkTimes <- subscript rasterData 0 ;;
    spkInds <- subscript rasterData 1 ;;
    n <- py_len rasterData ;;
    popNumCells <- (if bool_decide (2 < n)%nat then subscript rasterData 2 else ret popNumCells) ;;
    n <- py_len rasterData ;;
    popLabels <- (if bool_decide (3 < n)%nat then subscript rasterData 3 else ret popLabels) ;;
    ret (Raster spkTimes spkInds popNumCells popLabels).

(** Lines 238-242.  [# Ensure popNumCells and popLabels are not None]. *)
Definition ensurePops (r : raster) : M raster :=
  popNumCells <- (if is_none (popNumCells r) then
                    zs <- int_items (spkInds r) ;;
                    alloc (OList [VInt (Z.of_nat (size (py_set zs)))])
                  else ret (popNumCells r)) ;;
  popLabels <- (if is_none (popLabels r) then alloc (OList [VStr "Population"])
                else ret (popLabels r)) ;;
  ret (Raster (spkTimes r) (spkInds r) popNumCells popLabels).

(** Line 245.  [# Define the cell indices for plotting synchrony lines]. *)
Definition defineCellInds (r : raster) : M value :=
  zs <- int_items (spkInds r) ;;
  alloc (OList (VInt <$> set_to_list (py_set zs))).

(** Lines 247-251.  [# Create the scatter plotter].  [title], [xlabel] and
    [ylabel] are neither parameters nor assigned: they are global names. *)
Definition createPlotter (axis : value) : M (value * value * value) :=
  load_global G "ScatterPlotter" ;;;
  emit NewPlotter ;;;
  let plotter := VExt "plotter" in
  emit CreateFig ;;;
  let fig := VExt "fig" in
  emit (GetAxis axis) ;;;
  let axis := if is_none axis then VExt "axis" else axis in
  title <- load_global G "title" ;;
  xlabel <- load_global G "xlabel" ;;
  ylabel <- load_global G "ylabel" ;;
  emit (SetAttributes title xlabel ylabel) ;;;
  ret (plotter, fig, axis).

(** Lines 253-258.  [# Ensure spkInds is ordered properly].  Only [spkInds]
    is rebound, to a new list; [spkTimes] is not touched.  [sorted] with a
    key calls the key on every element first, so [sim] is read only when
    there is an element. *)
Definition orderInds (sim : option value) (orderBy : value) (r : raster) : M raster :=
  spkInds <- (if is_str orderBy "gid" then
                zs <- int_items (spkInds r) ;;
                alloc (OList (VInt <$> py_sorted zs))
              else
                zs <- int_items (spkInds r) ;;
                keys <- mapM (λ x, sim <- load_local "sim" sim ;;
                                   lift (cellTag sim x orderBy)) zs ;;
                sorted <- lift (sorted_by_key (zip keys zs)) ;;
                alloc (OList (VInt <$> sorted))) ;;
  ret (Raster (spkTimes r) spkInds (popNumCells r) (popLabels r)).

(** Lines 260-261.  [# Plot the raster].  [s], [marker] and [linewidth] are
    global names. *)
Definition plotScatter (r : raster) : M unit :=
  s <- load_global G "s" ;;
  marker <- load_global G "marker" ;;
  linewidth <- load_global G "linewidth" ;;
  emit (Scatter (spkTimes r) (spkInds r) s marker linewidth).

(** Line 266.  [[spkTimes[i] for i, ind in enumerate(spkInds) if ind ==
    cellInd]]: the positions are those of [spkInds] as it is now. *)
Definition spikeTimesOf (r : raster) (cellInd : Z) : M (list value) :=
  inds <- int_items (spkInds r) ;;
  mapM (λ i, subscript (spkTimes r) i)
       (fst <$> filter (λ p, p.2 = cellInd) (imap pair inds)).

(** Lines 263-268.  [# Add synchrony lines if needed]. *)
Definition addSyncLines (syncLines cellInds : value) (r : raster) : M unit :=
  on <- truthy syncLines ;;
  if (on : bool) then
    cells <- int_items cellInds ;;
    forM_ cells (λ cellInd,
      spike_times <- spikeTimesOf r cellInd ;;
      forM_ spike_times (λ spike_time,
        ymax <- py_len cellInds ;;
        linewidth <- load_global G "linewidth" ;;
        emit (Vlines spike_time 0 ymax "gray" "dotted" linewidth)))
  else ret tt.

(** Line 272, the count inside the label:
    [len([x for x in spkInds if x in range(sum(popNumCells[:i]),
    sum(popNumCells[:i + 1]))])]. *)
Definition popCount (r : raster) (i : nat) : M nat :=
  inds <- int_items (spkInds r) ;;
  hits <- mapM (λ x, lo <- (xs <- slice_to (popNumCells r) i ;; py_sum xs) ;;
                     hi <- (xs <- slice_to (popNumCells r) (i + 1) ;; py_sum xs) ;;
                     ret (in_range x lo hi)) inds ;;
  ret (length (filter (λ h, h = true) hits)).

(** Lines 272-273, one element of [legendHandles]. *)
Definition legendHandle (popColors : value) (r : raster) (i : nat) (pop : value) : M patch :=
  load_global G "mpatches" ;;;
  match pop with
  | VStr pop =>
      color <- getitem popColors pop ;;
      n <- popCount r i ;;
      ret (Patch color (legend_label pop n))
  | _ => raise (Unmodelled "a population label that is not a string")
  end.

(** [**kwargs.get('legendKwargs', {})] *)
Definition legendKwargs (kwargs : list (string * value)) : M (list (string * value)) :=
  match assoc "legendKwargs" kwargs with
  | None => ret []
  | Some (VRef l) =>
      o <- read l ;;
      match o with
      | ODict items => ret items
      | _ => raise (TypeError "argument after ** must be a mapping")
      end
  | Some _ => raise (TypeError "argument after ** must be a mapping")
  end.

(** The items of a list or tuple, as iteration yields them. *)
Definition items (v : value) : M (list value) :=
  match v with
  | VRef l => o <- read l ;;
      match o with
      | OList xs | OTuple xs => ret xs
      | ODict _ => raise (Unmodelled "iterating the keys of a dict")
      end
  | VStr _ => raise (Unmodelled "iterating a string")
  | VExt _ => raise (Unmodelled "iterating a collaborator object")
  | _ => raise (TypeError "not iterable")
  end.

(** Lines 270-274.  [# Add legend].  [handles] is passed by keyword, so a
    ['handles'] key among the unpacked [legendKwargs] gives the keyword
    twice: the call raises before [axis.legend] is entered. *)
Definition addLegend (legend popColors : value) (kwargs : list (string * value)) (r : raster) : M unit :=
  on <- truthy legend ;;
  if (on : bool) then
    pops <- items (popLabels r) ;;
    legendHandles <- mapM (λ ip, legendHandle popColors r ip.1 ip.2) (imap pair pops) ;;
    kw <- legendKwargs kwargs ;;
    match assoc "handles" kw with
    | Some _ => raise (TypeError "got multiple values for keyword argument 'handles'")
    | None => emit (Legend legendHandles kw)
    end
  else ret tt.

(** Lines 276-279.  [# Apply rcParams if provided].  [plt] is a global
    name. *)
Definition applyRcParams (kwargs : list (string * value)) : M unit :=
  match assoc "rcParams" kwargs with
  | None => ret tt
  | Some (VRef l) =>
      o <- read l ;;
      match o with
      | ODict items =>
          forM_ items (λ pv, load_global G "plt" ;;; emit (SetRcParam pv.1 pv.2))
      | _ => raise (AttributeError "items")
      end
  | Some _ => raise (AttributeError "items")
  end.

Definition get (kwargs : list (string * value)) (k : string) (default : value) : value :=
  match assoc k kwargs with Some v => v | None => default end.

(** Lines 281-286.  [# Show or save figure if specified]. *)
Definition showOrSave (kwargs : list (string * value)) (plotter fig : value) : M unit :=
  showFig <- truthy (get kwargs "showFig" (VBool false)) ;;
  (if (showFig : bool) then load_global G "plt" ;;; emit Show else ret tt) ;;;
  saveFig <- truthy (get kwargs "saveFig" (VBool false)) ;;
  if (saveFig : bool) then
    let filename := get kwargs "filename" (VStr "rasterPlot.png") in
    emit (SaveFig fig filename (get kwargs "overwrite" (VBool true)))
  else ret tt.

(** The function, statement block by statement block. *)
Definition plotRaster (p : Arg.t) : M value :=
  src <- getData p ;;
  r <- useData src.1 (Arg.popNumCells p) (Arg.popLabels p) ;;
  r <- ensurePops r ;;
  cellInds <- defineCellInds r ;;
  pfa <- createPlotter (Arg.axis p) ;;
  let plotter := pfa.1.1 in
  let fig := pfa.1.2 in
  let axis := pfa.2 in
  r <- orderInds src.2 (Arg.orderBy p) r ;;
  plotScatter r ;;;
  addSyncLines (Arg.syncLines p) cellInds r ;;;
  addLegend (Arg.legend p) (Arg.popColors p) (Arg.kwargs p) r ;;;
  applyRcParams (Arg.kwargs p) ;;;
  showOrSave (Arg.kwargs p) plotter fig ;;;
  returnPlotter <- truthy (Arg.returnPlotter p) ;;
  ret (if negb returnPlotter then fig else plotter).

(** What the data blocks leave for the plotting blocks: the raster and the
    local [cellInds]. *)
Record normalized : Type := Normalized { data : raster; cellInds : value }.

(** The data half of the body: the statements that turn the input into the
    two sequences and the population lists that are plotted (lines 213-245
    and 253-258), in source order, without the calls to the plotting back
    end that stand between them.  This is the spec's normalizer. *)
Definition normalize (p : Arg.t) : M normalized :=
  src <- getData p ;;
  r <- useData src.1 (Arg.popNumCells p) (Arg.popLabels p) ;;
  r <- ensurePops r ;;
  cellInds <- defineCellInds r ;;
  r <- orderInds src.2 (Arg.orderBy p) r ;;
  ret (Normalized r cellInds).

End PlotRaster.

(** ** Reading a world *)

(** The items of the list or tuple [v] refers to in [w]. *)
Definition list_at (w : world) (v : value) : option (list value) :=
  match v with
  | VRef l =>
      match heap w !! l with
      | Some (OList xs | OTuple xs) => Some xs
      | _ => None
      end
  | _ => None
  end.

(** The same when all of them are ints. *)
Definition ints_at (w : world) (v : value) : option (list Z) :=
  list_at w v ≫= as_ints.

(** What a raster input supplies at position [i] (list or tuple) or under
    key [k] (dict). *)
Definition supplied (o : object) (i : nat) (k : string) : option value :=
  match o with
  | OList xs | OTuple xs => xs !! i
  | ODict items => assoc k items
  end.

(** [w'] has every container of [w], as it was, and the same trace of
    rendering calls: a step from [w] to [w'] has at most created
    containers. *)
Definition unchanged (w w' : world) : Prop :=
  heap w `prefix_of` heap w' ∧ rendered w' = rendered w.

(** A computation that, whatever it returns or raises, leaves every world
    unchanged. *)
Definition framed {A} (m : M A) : Prop :=
  ∀ w res w', m w = (res, w') → unchanged w w'.

(** Two values are the same object, or two lists with the same items. *)
Definition same_value (w1 : world) (v1 : value) (w2 : world) (v2 : value) : Prop :=
  v1 = v2 ∨ ∃ xs, list_at w1 v1 = Some xs ∧ list_at w2 v2 = Some xs.

(** The spec's [countOfDistinct]: the number of distinct indices. *)
Definition countOfDistinct (zs : list Z) : nat := length (remove_dups zs).

(** The spec's boundary range of population [k]: it starts where the
    populations before it end and holds [sizes[k]] indices, which is
    [[sum(sizes[:k]), sum(sizes[:k+1]))]. *)
Definition boundary (sizes : list Z) (k : nat) : Z * Z :=
  (sum_list_Z (take k sizes), sum_list_Z (take k sizes) + default 0 (sizes !! k)).

(** The number of indices in a range. *)
Definition countIn (zs : list Z) (range : Z * Z) : nat :=
  length (filter (λ x, range.1 ≤ x < range.2) zs).

(** The times paired with index [c] in the input:
    [[t for t, i in zip(times, inds) if i == c]]. *)
Definition pairedWith (times : list value) (inds : list Z) (c : Z) : list value :=
  fst <$> filter (λ p, p.2 = c) (zip times inds).

(** The events the spec's ordering by index asks for: the pairs
    [(time, index)] sorted by index, ties in input order. *)
Definition sortPairs (times : list value) (inds : list Z) : list (value * Z) :=
  stable_sort (λ a b, a.2 <? b.2) (zip times inds).

(** [[f x for x in xs]] for an [f] that reads nothing. *)
Fixpoint mapE {A B} (f : A → exn + B) (xs : list A) : exn + list B :=
  match xs with
  | [] => inr []
  | x :: xs' =>
      match f x with
      | inr y => match mapE f xs' with inr ys => inr (y :: ys) | inl e => inl e end
      | inl e => inl e
      end
  end.

Section Slices.

Variable prepareRaster : value → value → value → value → value → M value.
Variable ambient_sim : value.
Variable cellTag : value → Z → value → exn + value.

(** Lines 213-245 in one piece: the data blocks that run before the plotter
    is created.  It returns the local [sim], the raster and [cellInds]. *)
Definition prepareData (p : Arg.t) : M (option value * raster * value) :=
  src <- getData prepareRaster ambient_sim p ;;
  r <- useData src.1 (Arg.popNumCells p) (Arg.popLabels p) ;;
  r <- ensurePops r ;;
  cellInds <- defineCellInds r ;;
  ret (src.2, r, cellInds).

(** The order [orderInds] gives to the indices [zs], as a function of
    them. *)
Definition ordered (sim : option value) (orderBy : value) (zs : list Z) : exn + list Z :=
  if is_str orderBy "gid" then inr (py_sorted zs)
  else
    match zs with
    | [] => inr []
    | _ =>
        match sim with
        | None => inl (NameError "sim")
        | Some sim =>
            match mapE (λ x, cellTag sim x orderBy) zs with
            | inr keys => sorted_by_key (zip keys zs)
            | inl e => inl e
            end
        end
    end.

End Slices.

(** [p] with another [maxSpikes]. *)
Definition with_maxSpikes (m : value) (p : Arg.t) : Arg.t :=
  {| Arg.rasterData := Arg.rasterData p; Arg.axis := Arg.axis p;
     Arg.timeRange := Arg.timeRange p; Arg.maxSpikes := m;
     Arg.orderBy := Arg.orderBy p; Arg.popRates := Arg.popRates p;
     Arg.popNumCells := Arg.popNumCells p; Arg.popLabels := Arg.popLabels p;
     Arg.popColors := Arg.popColors p; Arg.syncLines := Arg.syncLines p;
     Arg.colorbyPhase := Arg.colorbyPhase p; Arg.legend := Arg.legend p;
     Arg.colorList := Arg.colorList p; Arg.orderInverse := Arg.orderInverse p;
     Arg.returnPlotter := Arg.returnPlotter p; Arg.kwargs := Arg.kwargs p |}.

(** [p] with another [rasterData]. *)
Definition with_rasterData (d : value) (p : Arg.t) : Arg.t :=
  {| Arg.rasterData := d; Arg.axis := Arg.axis p;
     Arg.timeRange := Arg.timeRange p; Arg.maxSpikes := Arg.maxSpikes p;
     Arg.orderBy := Arg.orderBy p; Arg.popRates := Arg.popRates p;
     Arg.popNumCells := Arg.popNumCells p; Arg.popLabels := Arg.popLabels p;
     Arg.popColors := Arg.popColors p; Arg.syncLines := Arg.syncLines p;
     Arg.colorbyPhase := Arg.colorbyPhase p; Arg.legend := Arg.legend p;
     Arg.colorList := Arg.colorList p; Arg.orderInverse := Arg.orderInverse p;
     Arg.returnPlotter := Arg.returnPlotter p; Arg.kwargs := Arg.kwargs p |}.

(** ** Stating the properties *)

(** Computations that read the store and nothing else. *)
Definition readonly {A} (m : M A) : Prop :=
  ∀ w res w', m w = (res, w') → w' = w.

(** What the input supplies for the two population lists, the parameter
    being used for what it does not. *)
Definition givenPops (p : Arg.t) (o : object) : value * value :=
  (default (Arg.popNumCells p) (supplied o 2 "popNumCells"),
   default (Arg.popLabels p) (supplied o 3 "popLabels")).

(** A population list after the defaults: the list given, or a new list
    with the default items. *)
Definition defaulted (w : world) (given v : value) (xs : list value) : Prop :=
  if is_none given then list_at w v = Some xs else v = given.

(** [rasterData] is a list, a tuple or a dict [o] that supplies the times
    [tv] and a list or tuple of int indices [zs]. *)
Definition raster_input (w : world) (p : Arg.t) (o : object) (tv : value) (zs : list Z) : Prop :=
  ∃ l iv, Arg.rasterData p = VRef l ∧ heap w !! l = Some o
          ∧ supplied o 0 "spkTimes" = Some tv
          ∧ supplied o 1 "spkInds" = Some iv
          ∧ ints_at w iv = Some zs.

(** Two results of [normalize] describe the same raster: the same times
    object, indices with the same items, and population lists that are the
    same objects or have the same items. *)
Definition same_result (w1 : world) (n1 : normalized) (w2 : world) (n2 : normalized) : Prop :=
  spkTimes (data n1) = spkTimes (data n2)
  ∧ (∃ zs, ints_at w1 (spkInds (data n1)) = Some zs
           ∧ ints_at w2 (spkInds (data n2)) = Some zs)
  ∧ same_value w1 (popNumCells (data n1)) w2 (popNumCells (data n2))
  ∧ same_value w1 (popLabels (data n1)) w2 (popLabels (data n2)).

(** A result of [normalize] as a list-shaped input: its four fields. *)
Definition fed_back (n : normalized) : list value :=
  [spkTimes (data n); spkInds (data n); popNumCells (data n); popLabels (data n)].

(** The times the synchrony block reads for the cells [cells], in the order
    it reads them: for each cell, the times at the positions the cell has
    in [inds]. *)
Definition syncMarkers (times : list value) (inds : list Z) (cells : list Z) : list value :=
  cells ≫= pairedWith times inds.

(** ** Concrete inputs *)

(** A session without a simulation: the data source and the tag lookup
    raise. *)
Definition no_prepareRaster : value → value → value → value → value → M value :=
  λ _ _ _ _ _, raise (AttributeError "analysis").

Definition no_cellTag : value → Z → value → exn + value :=
  λ _ _ _, inl (AttributeError "net").

(** The spec's example: [times=[0.1,0.3,0.2]], [indices=[2,0,1]], passed as
    a tuple. *)
Definition example_times : list value := [VFloat (1 # 10); VFloat (3 # 10); VFloat (2 # 10)].

Definition example_world : world :=
  World [OList example_times; OList [VInt 2; VInt 0; VInt 1]; OTuple [VRef 0%nat; VRef 1%nat]] [].

Definition example_args : Arg.t := with_rasterData (VRef 2%nat) Arg.default.

(** Three times, two indices. *)
Definition mismatch_world : world :=
  World [OList example_times; OList [VInt 2; VInt 0]; OTuple [VRef 0%nat; VRef 1%nat]] [].

(** Ten events, given as a dict, and [maxSpikes=5]. *)
Definition ten_times : list value := (λ k, VFloat (k # 1)) <$> [1; 2; 3; 4; 5; 6; 7; 8; 9; 10].

Definition ten_world : world :=
  World [OList ten_times;
         OList (VInt <$> [3; 1; 4; 1; 5; 9; 2; 6; 5; 3]);
         ODict [("spkTimes", VRef 0%nat); ("spkInds", VRef 1%nat)]] [].

Definition ten_args : Arg.t := with_maxSpikes (VInt 5) (with_rasterData (VRef 2%nat) Arg.default).

(** The spec's population example: [indices = [0,1,2,2,1]]. *)
Definition population_world : world :=
  World [OList ((λ k, VFloat (k # 1)) <$> [1; 2; 3; 4; 5]);
         OList (VInt <$> [0; 1; 2; 2; 1]);
         OList [VRef 0%nat; VRef 1%nat]] [].

(** A dict without a key. *)
Definition empty_dict_world : world := World [ODict []] [].

(** A normalized raster of two populations, of two cells and of one, with
    a colour for each. *)
Definition legend_world : world :=
  World [OList ((λ k, VFloat (k # 1)) <$> [1; 2; 3; 4]);
         OList (VInt <$> [0; 1; 1; 2]);
         OList (VInt <$> [2; 1]);
         OList [VStr "E"; VStr "I"];
         ODict [("E", VStr "red"); ("I", VStr "blue")]] [].

Definition legend_raster : raster :=
  Raster (VRef 0%nat) (VRef 1%nat) (VRef 2%nat) (VRef 3%nat).

(** ** Further concrete inputs *)

(** A dict with times and no indices. *)
Definition no_inds_world : world :=
  World [OList example_times; ODict [("spkTimes", VRef 0%nat)]] [].

(** A tuple of one item. *)
Definition one_item_world : world :=
  World [OList example_times; OTuple [VRef 0%nat]] [].

(** Three populations given with the data, as a dict, and one label given
    as an argument. *)
Definition given_pops_world : world :=
  World [OList example_times;
         OList [VInt 2; VInt 0; VInt 1];
         OList [VInt 1; VInt 1; VInt 1];
         ODict [("spkTimes", VRef 0%nat); ("spkInds", VRef 1%nat);
                ("popNumCells", VRef 2%nat); ("popLabels", VNone)];
         OList [VStr "mine"]] [].

Definition given_pops_args : Arg.t :=
  {| Arg.rasterData := VRef 3%nat; Arg.axis := VNone; Arg.timeRange := VNone;
     Arg.maxSpikes := VFloat (100000000 # 1); Arg.orderBy := VStr "gid";
     Arg.popRates := VBool true; Arg.popNumCells := VNone; Arg.popLabels := VRef 4%nat;
     Arg.popColors := VNone; Arg.syncLines := VBool false; Arg.colorbyPhase := VNone;
     Arg.legend := VBool true; Arg.colorList := VNone; Arg.orderInverse := VBool false;
     Arg.returnPlotter := VBool false; Arg.kwargs := [] |}.

(** The spec's example, to be ordered by the tag ['pop']. *)
Definition by_pop_args : Arg.t :=
  {| Arg.rasterData := VRef 2%nat; Arg.axis := VNone; Arg.timeRange := VNone;
     Arg.maxSpikes := VFloat (100000000 # 1); Arg.orderBy := VStr "pop";
     Arg.popRates := VBool true; Arg.popNumCells := VNone; Arg.popLabels := VNone;
     Arg.popColors := VNone; Arg.syncLines := VBool false; Arg.colorbyPhase := VNone;
     Arg.legend := VBool true; Arg.colorList := VNone; Arg.orderInverse := VBool false;
     Arg.returnPlotter := VBool false; Arg.kwargs := [] |}.

(** A simulation whose every cell has the tag value 7, and a data source
    that has no data. *)
Definition const_cellTag : value → Z → value → exn + value :=
  λ _ _ _, inr (VInt 7).

Definition stub_prepareRaster : value → value → value → value → value → M value :=
  λ _ _ _ _ _, raise (KeyError "simData").

(** A simulation whose cell [x] has the tag value [-x], and the raster of
    the spec's example before it is ordered. *)
Definition neg_cellTag : value → Z → value → exn + value :=
  λ _ x _, inr (VInt (- x)).

Definition example_raster : raster :=
  Raster (VRef 0%nat) (VRef 1%nat) VNone VNone.

(** The legend raster with a colour for the first population only. *)
Definition one_colour_world : world :=
  World [OList ((λ k, VFloat (k # 1)) <$> [1; 2; 3; 4]);
         OList (VInt <$> [0; 1; 1; 2]);
         OList (VInt <$> [2; 1]);
         OList [VStr "E"; VStr "I"];
         ODict [("E", VStr "red")]] [].

(** Two spikes of the cells 5 and 7, and no population metadata. *)
Definition sparse_world : world :=
  World [OList [VFloat (1 # 1); VFloat (2 # 1)];
         OList [VInt 5; VInt 7];
         OList [VRef 0%nat; VRef 1%nat]] [].

(** A data source that has the spec's example ready, at the reference 2. *)
Definition ready_prepareRaster : value → value → value → value → value → M value :=
  λ _ _ _ _ _, ret (VRef 2%nat).

(** One rcParams entry, passed as [rcParams={'font.size': 12}], and a call
    that asks for the figure to be shown and saved. *)
Definition rc_world : world := World [ODict [("font.size", VInt 12)]] [].

Definition rc_kwargs : list (string * value) := [("rcParams", VRef 0%nat)].

Definition show_kwargs : list (string * value) :=
  [("showFig", VBool true); ("saveFig", VBool true)].

(** Two times for three indices. *)
Definition short_times_world : world :=
  World [OList [VFloat (1 # 10); VFloat (3 # 10)]; OList [VInt 2; VInt 0; VInt 1]] [].

(** The module's namespace after a caller has bound the names the body
    reads without binding them. *)
Definition bound_globals : gmap string value :=
  list_to_map [("title", VStr "Raster"); ("xlabel", VStr "Time (ms)");
               ("ylabel", VStr "Cells"); ("s", VInt 5); ("marker", VStr "|");
               ("linewidth", VInt 2)] ∪ module_globals true.

(** The spec's example, without a legend. *)
Definition no_legend_args : Arg.t :=
  {| Arg.rasterData := VRef 2%nat; Arg.axis := VNone; Arg.timeRange := VNone;
     Arg.maxSpikes := VFloat (100000000 # 1); Arg.orderBy := VStr "gid";
     Arg.popRates := VBool true; Arg.popNumCells := VNone; Arg.popLabels := VNone;
     Arg.popColors := VNone; Arg.syncLines := VBool false; Arg.colorbyPhase := VNone;
     Arg.legend := VBool false; Arg.colorList := VNone; Arg.orderInverse := VBool false;
     Arg.returnPlotter := VBool false; Arg.kwargs := [] |}.

(** [p] with another [timeRange]. *)
Definition with_timeRange (tr : value) (p : Arg.t) : Arg.t :=
  {| Arg.rasterData := Arg.rasterData p; Arg.axis := Arg.axis p;
     Arg.timeRange := tr; Arg.maxSpikes := Arg.maxSpikes p;
     Arg.orderBy := Arg.orderBy p; Arg.popRates := Arg.popRates p;
     Arg.popNumCells := Arg.popNumCells p; Arg.popLabels := Arg.popLabels p;
     Arg.popColors := Arg.popColors p; Arg.syncLines := Arg.syncLines p;
     Arg.colorbyPhase := Arg.colorbyPhase p; Arg.legend := Arg.legend p;
     Arg.colorList := Arg.colorList p; Arg.orderInverse := Arg.orderInverse p;
     Arg.returnPlotter := Arg.returnPlotter p; Arg.kwargs := Arg.kwargs p |}.

(** A raster without a spike, passed as a tuple. *)
Definition no_spikes_world : world :=
  World [OList []; OList []; OTuple [VRef 0%nat; VRef 1%nat]] [].

(** [w'] has every container of [w], as it was, and every rendering call
    of [w], in order, followed by the calls made since. *)
Definition extended (w w' : world) : Prop :=
  heap w `prefix_of` heap w' ∧ rendered w `prefix_of` rendered w'.

(** A computation whose only effects are new containers and further
    rendering calls. *)
Definition appending {A} (m : M A) : Prop :=
  ∀ w res w', m w = (res, w') → extended w w'.

(** The spec's example, with synchrony lines and without a legend. *)
Definition sync_args : Arg.t :=
  {| Arg.rasterData := VRef 2%nat; Arg.axis := VNone; Arg.timeRange := VNone;
     Arg.maxSpikes := VFloat (100000000 # 1); Arg.orderBy := VStr "gid";
     Arg.popRates := VBool true; Arg.popNumCells := VNone; Arg.popLabels := VNone;
     Arg.popColors := VNone; Arg.syncLines := VBool true; Arg.colorbyPhase := VNone;
     Arg.legend := VBool false; Arg.colorList := VNone; Arg.orderInverse := VBool false;
     Arg.returnPlotter := VBool false; Arg.kwargs := [] |}.

(** The legend raster, with [legendKwargs={'handles': None}]. *)
Definition handles_world : world :=
  World [OList ((λ k, VFloat (k # 1)) <$> [1; 2; 3; 4]);
         OList (VInt <$> [0; 1; 1; 2]);
         OList (VInt <$> [2; 1]);
         OList [VStr "E"; VStr "I"];
         ODict [("E", VStr "red"); ("I", VStr "blue")];
         ODict [("handles", VNone)]] [].

Definition handles_kwargs : list (string * value) := [("legendKwargs", VRef 5%nat)].

(** * Properties *)

(** ** Sorting *)

Lemma insert_sorted_perm {A} (lt : A → A → bool) x s :
  insert_sorted lt x s ≡ₚ x :: s.
Proof.
  induction s as [|y s IH]; simpl; [done|].
  destruct (lt y x); [|done].
  rewrite IH. apply perm_swap.
Qed.

Lemma stable_sort_perm {A} (lt : A → A → bool) xs :
  stable_sort lt xs ≡ₚ xs.
Proof.
  induction xs as [|x xs IH]; simpl; [done|].
  by rewrite insert_sorted_perm, IH.
Qed.

Lemma insert_sorted_Z x s :
  Sorted Z.le s → Sorted Z.le (insert_sorted Z.ltb x s).
Proof.
  induction 1 as [|y s Hs IH Hhd]; simpl.
  - repeat constructor.
  - destruct (Z.ltb_spec y x) as [Hlt|Hle].
    + constructor; [done|].
      destruct Hhd as [|z s Hyz]; simpl.
      * constructor. lia.
      * destruct (Z.ltb_spec z x); constructor; lia.
    + constructor; [by constructor|]. by constructor.
Qed.

Lemma py_sorted_Sorted zs : Sorted Z.le (py_sorted zs).
Proof.
  unfold py_sorted. induction zs as [|z zs IH]; simpl.
  - constructor.
  - by apply insert_sorted_Z.
Qed.

Lemma py_sorted_perm zs : py_sorted zs ≡ₚ zs.
Proof. apply stable_sort_perm. Qed.

Lemma py_sorted_length zs : length (py_sorted zs) = length zs.
Proof. by rewrite py_sorted_perm. Qed.

(** Sorting what is sorted changes nothing. *)
Lemma py_sorted_fixed zs : Sorted Z.le zs → py_sorted zs = zs.
Proof.
  unfold py_sorted. induction 1 as [|y s Hs IH Hhd]; simpl; [done|].
  rewrite IH. destruct Hhd as [|z s Hyz]; simpl; [done|].
  destruct (Z.ltb_spec z y); [lia|done].
Qed.

Lemma py_sorted_idemp zs : py_sorted (py_sorted zs) = py_sorted zs.
Proof. apply py_sorted_fixed, py_sorted_Sorted. Qed.

(** ** Counting distinct indices *)

Lemma size_py_set zs : size (py_set zs) = countOfDistinct zs.
Proof.
  unfold py_set, countOfDistinct.
  rewrite <-(size_list_to_set (C := gset Z) (remove_dups zs)) by apply NoDup_remove_dups.
  f_equal. apply set_eq. intros x.
  by rewrite !elem_of_list_to_set, elem_of_remove_dups.
Qed.

Lemma set_to_list_NoDup zs : NoDup (set_to_list (py_set zs)).
Proof. apply NoDup_elements. Qed.

Lemma elem_of_set_to_list zs x : x ∈ set_to_list (py_set zs) ↔ x ∈ zs.
Proof. unfold set_to_list, py_set. by rewrite elem_of_elements, elem_of_list_to_set. Qed.

(** ** Lists of ints in the store *)

#[local] Arguments list_at : simpl never.
#[local] Arguments ints_at : simpl never.

Lemma as_ints_fmap zs : as_ints (VInt <$> zs) = Some zs.
Proof. induction zs as [|z zs IH]; [done|]. rewrite fmap_cons. simpl. by rewrite IH. Qed.

Lemma as_ints_Some xs zs : as_ints xs = Some zs → xs = VInt <$> zs.
Proof.
  revert zs. induction xs as [|x xs IH]; intros zs; simpl.
  - by intros [= <-].
  - destruct x; try done. destruct (as_ints xs) as [zs'|]; simpl; [|done].
    intros [= <-]. simpl. f_equal. by apply IH.
Qed.

Lemma list_at_prefix w w' v xs :
  heap w `prefix_of` heap w' → list_at w v = Some xs → list_at w' v = Some xs.
Proof.
  intros Hpre. unfold list_at. destruct v; try done.
  destruct (heap w !! l) as [o|] eqn:Hl; [|done].
  by rewrite (prefix_lookup_Some _ _ _ _ Hl Hpre).
Qed.

Lemma ints_at_prefix w w' v zs :
  heap w `prefix_of` heap w' → ints_at w v = Some zs → ints_at w' v = Some zs.
Proof.
  intros Hpre. unfold ints_at.
  destruct (list_at w v) as [xs|] eqn:Hxs; [|done].
  by rewrite (list_at_prefix _ _ _ _ Hpre Hxs).
Qed.

Lemma lookup_new {A} (h : list A) (o : A) : (h ++ [o]) !! length h = Some o.
Proof. by rewrite lookup_app_r, Nat.sub_diag. Qed.

Lemma list_at_new h c xs :
  list_at (World (h ++ [OList xs]) c) (VRef (length h)) = Some xs.
Proof. unfold list_at. simpl. by rewrite lookup_new. Qed.

(** ** Worlds that only grow *)

Lemma unchanged_refl w : unchanged w w.
Proof. by split. Qed.

Lemma unchanged_trans w1 w2 w3 :
  unchanged w1 w2 → unchanged w2 w3 → unchanged w1 w3.
Proof. intros [H1 E1] [H2 E2]. split; [by etrans|congruence]. Qed.

Lemma unchanged_alloc w o : unchanged w (World (heap w ++ [o]) (rendered w)).
Proof. split; simpl; [by apply prefix_app_r|done]. Qed.

Lemma framed_ret {A} (a : A) : framed (ret a).
Proof. intros w res w' [= _ <-]. apply unchanged_refl. Qed.

Lemma framed_raise {A} e : framed (raise (A := A) e).
Proof. intros w res w' [= _ <-]. apply unchanged_refl. Qed.

Lemma framed_lift {A} (r : exn + A) : framed (lift r).
Proof. intros w res w' [= _ <-]. apply unchanged_refl. Qed.

Lemma framed_alloc o : framed (alloc o).
Proof. intros w res w' [= _ <-]. apply unchanged_alloc. Qed.

Lemma framed_read l : framed (read l).
Proof.
  intros w res w'. unfold read.
  destruct (heap w !! l); intros [= _ <-]; apply unchanged_refl.
Qed.

Lemma framed_bind {A B} (m : M A) (k : A → M B) :
  framed m → (∀ a, framed (k a)) → framed (bind m k).
Proof.
  intros Hm Hk w res w'. unfold bind.
  destruct (m w) as [[e|a] w1] eqn:E.
  - intros [= _ <-]. by eapply Hm.
  - intros Hka. eapply unchanged_trans; [by eapply Hm|by eapply Hk].
Qed.

Lemma framed_mapM {A B} (f : A → M B) xs :
  (∀ x, framed (f x)) → framed (mapM f xs).
Proof.
  intros Hf. induction xs as [|x xs IH]; simpl.
  - apply framed_ret.
  - apply framed_bind; [done|]. intros y.
    apply framed_bind; [done|]. intros ys. apply framed_ret.
Qed.

Lemma framed_load_global G x : framed (load_global G x).
Proof. unfold load_global. destruct (G !! x); [apply framed_ret|apply framed_raise]. Qed.

Lemma framed_load_local x v : framed (load_local x v).
Proof. destruct v; [apply framed_ret|apply framed_raise]. Qed.

Create HintDb framed discriminated.
#[local] Hint Resolve framed_ret framed_raise framed_lift framed_alloc framed_read
  framed_load_global framed_load_local : framed.
#[local] Hint Extern 2 (framed (bind _ _)) => apply framed_bind; [|intros ?] : framed.
#[local] Hint Extern 2 (framed (mapM _ _)) => apply framed_mapM; intros ? : framed.
#[local] Hint Extern 3 (framed (if ?b then _ else _)) => destruct b : framed.
#[local] Hint Extern 3 (framed (match ?x with _ => _ end)) => destruct x : framed.

Ltac framed_op op := unfold op; auto 20 with framed.

Lemma framed_is_dict v : framed (is_dict v).
Proof. framed_op @is_dict. Qed.

Lemma framed_getitem v k : framed (getitem v k).
Proof. framed_op @getitem. Qed.

Lemma framed_contains v k : framed (contains v k).
Proof. framed_op @contains. Qed.

Lemma framed_subscript v i : framed (subscript v i).
Proof. framed_op @subscript. Qed.

Lemma framed_py_len v : framed (py_len v).
Proof. framed_op @py_len. Qed.

Lemma framed_int_items v : framed (int_items v).
Proof. framed_op @int_items. Qed.

#[local] Hint Resolve framed_is_dict framed_getitem framed_contains framed_subscript
  framed_py_len framed_int_items : framed.

Lemma framed_useData rd pn pl : framed (useData rd pn pl).
Proof. framed_op @useData. Qed.

Lemma framed_ensurePops r : framed (ensurePops r).
Proof. framed_op @ensurePops. Qed.

Lemma framed_defineCellInds r : framed (defineCellInds r).
Proof. framed_op @defineCellInds. Qed.

Lemma framed_orderInds cellTag sim orderBy r : framed (orderInds cellTag sim orderBy r).
Proof. framed_op @orderInds. Qed.

(** ** Running the monad *)

Lemma bind_inr {A B} (m : M A) (k : A → M B) w a w1 :
  m w = (inr a, w1) → bind m k w = k a w1.
Proof. unfold bind. by intros ->. Qed.

Lemma bind_inl {A B} (m : M A) (k : A → M B) w e w1 :
  m w = (inl e, w1) → bind m k w = (inl e, w1).
Proof. unfold bind. by intros ->. Qed.

Lemma bind_inr_inv {A B} (m : M A) (k : A → M B) w b w' :
  bind m k w = (inr b, w') →
  ∃ a w1, m w = (inr a, w1) ∧ k a w1 = (inr b, w').
Proof.
  unfold bind. destruct (m w) as [[e|a] w1]; [done|]. eauto.
Qed.

Lemma readonly_ret {A} (a : A) : readonly (ret a).
Proof. by intros w res w' [= _ <-]. Qed.

Lemma readonly_raise {A} e : readonly (raise (A := A) e).
Proof. by intros w res w' [= _ <-]. Qed.

Lemma readonly_lift {A} (r : exn + A) : readonly (lift r).
Proof. by intros w res w' [= _ <-]. Qed.

Lemma readonly_read l : readonly (read l).
Proof. intros w res w'. unfold read. by destruct (heap w !! l); intros [= _ <-]. Qed.

Lemma readonly_bind {A B} (m : M A) (k : A → M B) :
  readonly m → (∀ a, readonly (k a)) → readonly (bind m k).
Proof.
  intros Hm Hk w res w'. unfold bind.
  destruct (m w) as [[e|a] w1] eqn:E.
  - intros [= _ <-]. by eapply Hm.
  - intros Hka. apply Hm in E as ->. by eapply Hk.
Qed.

Lemma readonly_mapM {A B} (f : A → M B) xs :
  (∀ x, readonly (f x)) → readonly (mapM f xs).
Proof.
  intros Hf. induction xs as [|x xs IH]; simpl.
  - apply readonly_ret.
  - apply readonly_bind; [done|]. intros y.
    apply readonly_bind; [done|]. intros ys. apply readonly_ret.
Qed.

Lemma readonly_load_global G x : readonly (load_global G x).
Proof. unfold load_global. destruct (G !! x); [apply readonly_ret|apply readonly_raise]. Qed.

Lemma readonly_load_local x v : readonly (load_local x v).
Proof. destruct v; [apply readonly_ret|apply readonly_raise]. Qed.

Create HintDb readonly discriminated.
#[local] Hint Resolve readonly_ret readonly_raise readonly_lift readonly_read
  readonly_load_global readonly_load_local : readonly.
#[local] Hint Extern 2 (readonly (bind _ _)) => apply readonly_bind; [|intros ?] : readonly.
#[local] Hint Extern 2 (readonly (mapM _ _)) => apply readonly_mapM; intros ? : readonly.
#[local] Hint Extern 3 (readonly (if ?b then _ else _)) => destruct b : readonly.
#[local] Hint Extern 3 (readonly (match ?x with _ => _ end)) => destruct x : readonly.

Ltac readonly_op op := unfold op; auto 20 with readonly.

Lemma readonly_is_dict v : readonly (is_dict v).
Proof. readonly_op @is_dict. Qed.

Lemma readonly_getitem v k : readonly (getitem v k).
Proof. readonly_op @getitem. Qed.

Lemma readonly_contains v k : readonly (contains v k).
Proof. readonly_op @contains. Qed.

Lemma readonly_subscript v i : readonly (subscript v i).
Proof. readonly_op @subscript. Qed.

Lemma readonly_py_len v : readonly (py_len v).
Proof. readonly_op @py_len. Qed.

Lemma readonly_int_items v : readonly (int_items v).
Proof. readonly_op @int_items. Qed.

Lemma readonly_slice_to v i : readonly (slice_to v i).
Proof. readonly_op @slice_to. Qed.

Lemma readonly_py_sum xs : readonly (py_sum xs).
Proof. readonly_op @py_sum. Qed.

Lemma readonly_truthy v : readonly (truthy v).
Proof. readonly_op @truthy. Qed.

#[local] Hint Resolve readonly_is_dict readonly_getitem readonly_contains
  readonly_subscript readonly_py_len readonly_int_items readonly_slice_to
  readonly_py_sum readonly_truthy : readonly.

Lemma readonly_useData rd pn pl : readonly (useData rd pn pl).
Proof. readonly_op @useData. Qed.

(** ** The operations on well-shaped data *)

Lemma int_items_ints_at w v zs :
  ints_at w v = Some zs → int_items v w = (inr zs, w).
Proof.
  unfold ints_at, list_at, int_items, bind, read, ret.
  destruct v; try done.
  destruct (heap w !! l) as [[xs|xs|its]|]; simpl; try done; by intros ->.
Qed.

Lemma int_items_inv w v zs w' :
  int_items v w = (inr zs, w') → w' = w ∧ ints_at w v = Some zs.
Proof.
  intros H. pose proof (readonly_int_items _ _ _ _ H) as ->. split; [done|].
  revert H. unfold ints_at, list_at, int_items, bind, read, ret, raise.
  destruct v; try done.
  destruct (heap w !! l) as [[xs|xs|its]|]; simpl; try done;
    destruct (as_ints xs); by intros [= ->].
Qed.

Lemma ints_at_list_at w v zs :
  ints_at w v = Some zs → list_at w v = Some (VInt <$> zs).
Proof.
  unfold ints_at. destruct (list_at w v) as [xs|]; simpl; [|done].
  by intros ->%as_ints_Some.
Qed.

Lemma ints_at_new w c zs :
  ints_at (World (heap w ++ [OList (VInt <$> zs)]) c) (VRef (length (heap w))) = Some zs.
Proof.
  unfold ints_at. rewrite list_at_new. simpl. apply as_ints_fmap.
Qed.

Lemma read_at w l o : heap w !! l = Some o → read l w = (inr o, w).
Proof. unfold read. by intros ->. Qed.

Lemma is_dict_at w l o :
  heap w !! l = Some o →
  is_dict (VRef l) w = (inr (match o with ODict _ => true | _ => false end), w).
Proof. intros Hl. unfold is_dict. by rewrite (bind_inr _ _ _ _ _ (read_at _ _ _ Hl)). Qed.

Lemma subscript_at w l o i x :
  heap w !! l = Some o → (∀ its, o ≠ ODict its) → supplied o i EmptyString = Some x →
  subscript (VRef l) i w = (inr x, w).
Proof.
  intros Hl Ho Hx. unfold subscript. rewrite (bind_inr _ _ _ _ _ (read_at _ _ _ Hl)).
  destruct o as [xs|xs|its]; simpl in *; [by rewrite Hx..|by destruct (Ho its)].
Qed.

Lemma py_len_at w l o :
  heap w !! l = Some o →
  py_len (VRef l) w =
    (inr (match o with OList xs | OTuple xs => length xs | ODict its => length its end), w).
Proof. intros Hl. unfold py_len. by rewrite (bind_inr _ _ _ _ _ (read_at _ _ _ Hl)). Qed.

Lemma getitem_at w l its k x :
  heap w !! l = Some (ODict its) → assoc k its = Some x →
  getitem (VRef l) k w = (inr x, w).
Proof.
  intros Hl Hx. unfold getitem. rewrite (bind_inr _ _ _ _ _ (read_at _ _ _ Hl)).
  by rewrite Hx.
Qed.

Lemma contains_at w l its k :
  heap w !! l = Some (ODict its) →
  contains (VRef l) k w = (inr (bool_decide (is_Some (assoc k its))), w).
Proof. intros Hl. unfold contains. by rewrite (bind_inr _ _ _ _ _ (read_at _ _ _ Hl)). Qed.

(** One optional item of a list or tuple input: [if len(rasterData) > i:
    v = rasterData[i]]. *)
Lemma optional_item w l o (xs : list value) i d {A} (k : value → M A) :
  heap w !! l = Some o → (o = OList xs ∨ o = OTuple xs) →
  (n <- py_len (VRef l) ;;
   v <- (if bool_decide (i < n)%nat then subscript (VRef l) i else ret d) ;;
   k v) w
  = k (default d (xs !! i)) w.
Proof.
  intros Hl Ho. rewrite (bind_inr _ _ _ _ _ (py_len_at _ _ _ Hl)).
  assert (length xs = match o with
                      | OList xs | OTuple xs => length xs
                      | ODict its => length its
                      end) as <- by (by destruct Ho as [-> | ->]).
  destruct (xs !! i) as [x|] eqn:E.
  - rewrite bool_decide_true by (by apply lookup_lt_Some in E).
    apply bind_inr, (subscript_at _ _ o); [done| |];
      by destruct Ho as [-> | ->].
  - by rewrite bool_decide_false by (apply lookup_ge_None in E; lia).
Qed.

(** One optional key of a dict input: [if k in rasterData: v =
    rasterData[k]]. *)
Lemma optional_key w l its key d {A} (k : value → M A) :
  heap w !! l = Some (ODict its) →
  (has <- contains (VRef l) key ;;
   v <- (if (has : bool) then getitem (VRef l) key else ret d) ;;
   k v) w
  = k (default d (assoc key its)) w.
Proof.
  intros Hl. rewrite (bind_inr _ _ _ _ _ (contains_at _ _ _ key Hl)).
  destruct (assoc key its) as [x|] eqn:E.
  - rewrite bool_decide_true by eauto.
    apply bind_inr. by apply (getitem_at _ _ its).
  - by rewrite bool_decide_false by (by intros [? ?]).
Qed.

Lemma useData_supplied w l o tv iv pn pl :
  heap w !! l = Some o →
  supplied o 0 "spkTimes" = Some tv →
  supplied o 1 "spkInds" = Some iv →
  useData (VRef l) pn pl w =
    (inr (Raster tv iv (default pn (supplied o 2 "popNumCells"))
                       (default pl (supplied o 3 "popLabels"))), w).
Proof.
  intros Hl Ht Hi. unfold useData.
  rewrite (bind_inr _ _ _ _ _ (is_dict_at _ _ _ Hl)).
  destruct o as [xs|xs|its]; simpl in Ht, Hi |- *.
  - rewrite (bind_inr _ _ _ _ _ (subscript_at _ _ _ 0 tv Hl ltac:(done) Ht)).
    rewrite (bind_inr _ _ _ _ _ (subscript_at _ _ _ 1 iv Hl ltac:(done) Hi)).
    rewrite (optional_item _ _ _ xs 2 pn _ Hl) by (by left).
    by rewrite (optional_item _ _ _ xs 3 pl _ Hl) by (by left).
  - rewrite (bind_inr _ _ _ _ _ (subscript_at _ _ _ 0 tv Hl ltac:(done) Ht)).
    rewrite (bind_inr _ _ _ _ _ (subscript_at _ _ _ 1 iv Hl ltac:(done) Hi)).
    rewrite (optional_item _ _ _ xs 2 pn _ Hl) by (by right).
    by rewrite (optional_item _ _ _ xs 3 pl _ Hl) by (by right).
  - rewrite (bind_inr _ _ _ _ _ (getitem_at _ _ _ _ _ Hl Ht)).
    rewrite (bind_inr _ _ _ _ _ (getitem_at _ _ _ _ _ Hl Hi)).
    rewrite (optional_key _ _ _ "popNumCells" pn _ Hl).
    by rewrite (optional_key _ _ _ "popLabels" pl _ Hl).
Qed.

Lemma useData_inv w rd pn pl r w' :
  useData rd pn pl w = (inr r, w') →
  w' = w ∧
  ((∃ l o, rd = VRef l ∧ heap w !! l = Some o
           ∧ supplied o 0 "spkTimes" = Some (spkTimes r)
           ∧ supplied o 1 "spkInds" = Some (spkInds r))
   ∨ (∃ c, spkInds r = VStr c)).
Proof.
  intros H. pose proof (readonly_useData _ _ _ _ _ _ H) as ->. split; [done|].
  destruct rd as [| | | |s| |l].
  1-4,6: by (unfold useData, is_dict, subscript, bind, ret, raise in H; simpl in H).
  - right. unfold useData, is_dict, subscript, py_len, bind, ret, raise in H. simpl in H.
    destruct (String.get 0 s); [|done]. simpl in H.
    destruct (String.get 1 s); [|done]. simpl in H.
    repeat case_bool_decide; simpl in H;
      repeat (match type of H with
              | context [String.get ?i s] => destruct (String.get i s)
              end; simpl in H);
      try done; injection H as <-; simpl; eauto.
  - left. destruct (heap w !! l) as [o|] eqn:Hl.
    2: { unfold useData, is_dict, bind, read in H. by rewrite Hl in H. }
    exists l, o. split; [done|]. split; [done|].
    unfold useData in H. rewrite (bind_inr _ _ _ _ _ (is_dict_at _ _ _ Hl)) in H.
    destruct o as [xs|xs|its]; simpl.
    + destruct (xs !! 0%nat) as [x0|] eqn:E0.
      2: { unfold subscript, bind, read, raise in H. rewrite Hl, E0 in H. done. }
      rewrite (bind_inr _ _ _ _ _ (subscript_at _ _ _ 0 x0 Hl ltac:(done) E0)) in H.
      destruct (xs !! 1%nat) as [x1|] eqn:E1.
      2: { unfold subscript, bind, read, raise in H. rewrite Hl, E1 in H. done. }
      pose proof (useData_supplied w l (OList xs) x0 x1 pn pl Hl E0 E1) as Hs.
      unfold useData in Hs. rewrite (bind_inr _ _ _ _ _ (is_dict_at _ _ _ Hl)) in Hs.
      rewrite (bind_inr _ _ _ _ _ (subscript_at _ _ _ 0 x0 Hl ltac:(done) E0)) in Hs.
      rewrite Hs in H. by injection H as <-.
    + destruct (xs !! 0%nat) as [x0|] eqn:E0.
      2: { unfold subscript, bind, read, raise in H. rewrite Hl, E0 in H. done. }
      rewrite (bind_inr _ _ _ _ _ (subscript_at _ _ _ 0 x0 Hl ltac:(done) E0)) in H.
      destruct (xs !! 1%nat) as [x1|] eqn:E1.
      2: { unfold subscript, bind, read, raise in H. rewrite Hl, E1 in H. done. }
      pose proof (useData_supplied w l (OTuple xs) x0 x1 pn pl Hl E0 E1) as Hs.
      unfold useData in Hs. rewrite (bind_inr _ _ _ _ _ (is_dict_at _ _ _ Hl)) in Hs.
      rewrite (bind_inr _ _ _ _ _ (subscript_at _ _ _ 0 x0 Hl ltac:(done) E0)) in Hs.
      rewrite Hs in H. by injection H as <-.
    + destruct (assoc "spkTimes" its) as [x0|] eqn:E0.
      2: { unfold getitem, bind, read, raise in H. rewrite Hl, E0 in H. done. }
      rewrite (bind_inr _ _ _ _ _ (getitem_at _ _ _ _ _ Hl E0)) in H.
      destruct (assoc "spkInds" its) as [x1|] eqn:E1.
      2: { unfold getitem, bind, read, raise in H. rewrite Hl, E1 in H. done. }
      pose proof (useData_supplied w l (ODict its) x0 x1 pn pl Hl E0 E1) as Hs.
      unfold useData in Hs. rewrite (bind_inr _ _ _ _ _ (is_dict_at _ _ _ Hl)) in Hs.
      rewrite (bind_inr _ _ _ _ _ (getitem_at _ _ _ _ _ Hl E0)) in Hs.
      rewrite Hs in H. by injection H as <-.
Qed.

Lemma ensurePops_ints w r zs :
  ints_at w (spkInds r) = Some zs →
  ∃ r' w', ensurePops r w = (inr r', w') ∧ unchanged w w'
    ∧ spkTimes r' = spkTimes r ∧ spkInds r' = spkInds r
    ∧ (if is_none (popNumCells r)
       then list_at w' (popNumCells r') = Some [VInt (Z.of_nat (countOfDistinct zs))]
       else popNumCells r' = popNumCells r)
    ∧ (if is_none (popLabels r)
       then list_at w' (popLabels r') = Some [VStr "Population"]
       else popLabels r' = popLabels r).
Proof.
  intros Hz. unfold ensurePops.
  destruct (is_none (popNumCells r)) eqn:En; destruct (is_none (popLabels r)) eqn:El.
  - rewrite (bind_inr _ _ _ _ _ (bind_inr _ _ _ _ _ (int_items_ints_at _ _ _ Hz))).
    eexists _, _. split; [reflexivity|]. simpl.
    split; [|split; [done|split; [done|split]]].
    + split; simpl; [|done]. rewrite <-app_assoc. by apply prefix_app_r.
    + rewrite size_py_set.
      eapply list_at_prefix; [|apply (list_at_new (heap w) (rendered w))].
      simpl. by apply prefix_app_r.
    + apply (list_at_new (heap w ++ [_])).
  - rewrite (bind_inr _ _ _ _ _ (bind_inr _ _ _ _ _ (int_items_ints_at _ _ _ Hz))).
    eexists _, _. split; [reflexivity|]. simpl.
    split; [|split; [done|split; [done|split]]].
    + apply unchanged_alloc.
    + rewrite size_py_set. apply list_at_new.
    + done.
  - eexists _, _. split; [reflexivity|]. simpl.
    split; [|split; [done|split; [done|split]]].
    + apply unchanged_alloc.
    + done.
    + apply list_at_new.
  - eexists _, _. split; [reflexivity|]. simpl.
    split; [apply unchanged_refl|done].
Qed.

Lemma ensurePops_inv w r r' w' :
  ensurePops r w = (inr r', w') →
  spkTimes r' = spkTimes r ∧ spkInds r' = spkInds r
  ∧ is_none (popNumCells r') = false ∧ is_none (popLabels r') = false.
Proof.
  unfold ensurePops. intros H.
  apply bind_inr_inv in H as (pn & w1 & Hpn & H).
  apply bind_inr_inv in H as (pl & w2 & Hpl & H).
  injection H as <- <-. simpl. split; [done|]. split; [done|]. split.
  - destruct (is_none (popNumCells r)) eqn:En.
    + apply bind_inr_inv in Hpn as (zs & w0 & _ & Hpn). by injection Hpn as <- <-.
    + by injection Hpn as <- <-.
  - destruct (is_none (popLabels r)) eqn:El; by injection Hpl as <- <-.
Qed.

Lemma defineCellInds_ints w r zs :
  ints_at w (spkInds r) = Some zs →
  defineCellInds r w =
    (inr (VRef (length (heap w))),
     World (heap w ++ [OList (VInt <$> set_to_list (py_set zs))]) (rendered w)).
Proof.
  intros Hz. unfold defineCellInds.
  by rewrite (bind_inr _ _ _ _ _ (int_items_ints_at _ _ _ Hz)).
Qed.

Lemma defineCellInds_inv w r ci w' :
  defineCellInds r w = (inr ci, w') → ∃ zs, ints_at w (spkInds r) = Some zs.
Proof.
  unfold defineCellInds. intros H.
  apply bind_inr_inv in H as (zs & w1 & Hz & _).
  apply int_items_inv in Hz as [_ Hz]. eauto.
Qed.

Lemma mapM_cellTag (cellTag : value → Z → value → exn + value) sim orderBy zs w :
  mapM (λ x, s <- load_local "sim" sim ;; lift (cellTag s x orderBy)) zs w =
    (match zs, sim with
     | [], _ => inr []
     | _, None => inl (NameError "sim")
     | _, Some s => mapE (λ x, cellTag s x orderBy) zs
     end, w).
Proof.
  destruct sim as [s|].
  - induction zs as [|z zs IH]; [done|].
    cbn [mapM mapE load_local] in IH |- *.
    unfold bind at 1. unfold bind at 1. unfold ret at 1, lift at 1.
    destruct (cellTag s z orderBy) as [e|k]; [done|].
    unfold bind at 1. rewrite IH.
    destruct zs as [|z' zs]; [done|].
    by destruct (mapE _ (z' :: zs)).
  - by destruct zs.
Qed.

Lemma orderInds_ints cellTag sim orderBy w r zs :
  ints_at w (spkInds r) = Some zs →
  orderInds cellTag sim orderBy r w =
    match ordered cellTag sim orderBy zs with
    | inr zs' =>
        (inr (Raster (spkTimes r) (VRef (length (heap w))) (popNumCells r) (popLabels r)),
         World (heap w ++ [OList (VInt <$> zs')]) (rendered w))
    | inl e => (inl e, w)
    end.
Proof.
  intros Hz. unfold orderInds, ordered.
  destruct (is_str orderBy "gid").
  - by rewrite (bind_inr _ _ _ _ _ (bind_inr _ _ _ _ _ (int_items_ints_at _ _ _ Hz))).
  - unfold bind at 1. rewrite (bind_inr _ _ _ _ _ (int_items_ints_at _ _ _ Hz)).
    unfold bind at 1. rewrite mapM_cellTag.
    destruct zs as [|z zs]; [done|].
    destruct sim as [s|]; [|done].
    destruct (mapE _ (z :: zs)) as [e|keys]; [done|].
    unfold bind at 1, lift.
    by destruct (sorted_by_key _).
Qed.

Lemma orderInds_inv cellTag sim orderBy w r r' w' :
  orderInds cellTag sim orderBy r w = (inr r', w') →
  ∃ zs, ints_at w (spkInds r) = Some zs.
Proof.
  unfold orderInds. intros H.
  apply bind_inr_inv in H as (v & w1 & H & _).
  destruct (is_str orderBy "gid");
    apply bind_inr_inv in H as (zs & w2 & Hz & _);
    apply int_items_inv in Hz as [_ Hz]; eauto.
Qed.

(** ** The names of the module *)

Lemma module_binds_ScatterPlotter gui :
  module_globals gui !! "ScatterPlotter" = Some (VExt "ScatterPlotter").
Proof. by destruct gui; vm_compute. Qed.

Lemma module_binds_mpatches :
  module_globals true !! "mpatches" = Some (VExt "matplotlib.patches").
Proof. by vm_compute. Qed.

(** None of the names the body uses without binding them is bound by the
    module. *)
Lemma module_unbound gui x :
  x ∈ ["title"; "xlabel"; "ylabel"; "s"; "marker"; "linewidth"; "plt"] →
  module_globals gui !! x = None.
Proof.
  rewrite !elem_of_cons, elem_of_nil.
  intros [->|[->|[->|[->|[->|[->|[->|[]]]]]]]]; by destruct gui; vm_compute.
Qed.

(** With the names the module binds, the plotter block stops at [title]:
    the plotter, the figure and the axis have been asked for, nothing has
    been set or drawn. *)
Lemma createPlotter_module gui axis w :
  createPlotter (module_globals gui) axis w =
    (inl (NameError "title"),
     World (heap w) (rendered w ++ [NewPlotter; CreateFig; GetAxis axis])).
Proof.
  unfold createPlotter, load_global.
  rewrite module_binds_ScatterPlotter, (module_unbound gui "title") by set_solver.
  unfold bind, emit, ret, raise. simpl. by rewrite <-!app_assoc.
Qed.

(** ** The data blocks *)

Section Data.

Variable prepareRaster : value → value → value → value → value → M value.
Variable ambient_sim : value.
Variable cellTag : value → Z → value → exn + value.

Lemma normalize_prepareData p w :
  normalize prepareRaster ambient_sim cellTag p w =
    match prepareData prepareRaster ambient_sim p w with
    | (inr d, w1) =>
        match orderInds cellTag d.1.1 (Arg.orderBy p) d.1.2 w1 with
        | (inr r, w2) => (inr (Normalized r d.2), w2)
        | (inl e, w2) => (inl e, w2)
        end
    | (inl e, w1) => (inl e, w1)
    end.
Proof.
  unfold normalize, prepareData, bind.
  destruct (getData _ _ p w) as [[e|src] w0]; [done|].
  destruct (useData _ _ _ w0) as [[e|r] w1]; [done|].
  destruct (ensurePops r w1) as [[e|r'] w2]; [done|].
  destruct (defineCellInds r' w2) as [[e|ci] w3]; [done|]. simpl.
  by destruct (orderInds _ _ _ r' w3) as [[e|r''] w4].
Qed.

Lemma plotRaster_prepareData G p w :
  plotRaster prepareRaster ambient_sim cellTag G p w =
    match prepareData prepareRaster ambient_sim p w with
    | (inr d, w1) =>
        match createPlotter G (Arg.axis p) w1 with
        | (inr pfa, w2) =>
            (r <- orderInds cellTag d.1.1 (Arg.orderBy p) d.1.2 ;;
             plotScatter G r ;;;
             addSyncLines G (Arg.syncLines p) d.2 r ;;;
             addLegend G (Arg.legend p) (Arg.popColors p) (Arg.kwargs p) r ;;;
             applyRcParams G (Arg.kwargs p) ;;;
             showOrSave G (Arg.kwargs p) pfa.1.1 pfa.1.2 ;;;
             returnPlotter <- truthy (Arg.returnPlotter p) ;;
             ret (if negb returnPlotter then pfa.1.2 else pfa.1.1)) w2
        | (inl e, w2) => (inl e, w2)
        end
    | (inl e, w1) => (inl e, w1)
    end.
Proof.
  unfold plotRaster, prepareData, bind.
  destruct (getData _ _ p w) as [[e|src] w0]; [done|].
  destruct (useData _ _ _ w0) as [[e|r] w1]; [done|].
  destruct (ensurePops r w1) as [[e|r'] w2]; [done|].
  destruct (defineCellInds r' w2) as [[e|ci] w3]; [done|]. simpl.
  by destruct (createPlotter G _ w3) as [[e|pfa] w4].
Qed.

Lemma defaulted_prefix w w' given v xs :
  heap w `prefix_of` heap w' → defaulted w given v xs → defaulted w' given v xs.
Proof.
  unfold defaulted. intros Hpre. destruct (is_none given); [|done].
  by apply list_at_prefix.
Qed.

Lemma prepareData_supplied p w l o tv iv zs :
  Arg.rasterData p = VRef l → heap w !! l = Some o →
  supplied o 0 "spkTimes" = Some tv → supplied o 1 "spkInds" = Some iv →
  ints_at w iv = Some zs →
  ∃ r ci w1,
    prepareData prepareRaster ambient_sim p w = (inr (None, r, ci), w1)
    ∧ unchanged w w1 ∧ spkTimes r = tv ∧ spkInds r = iv
    ∧ defaulted w1 (givenPops p o).1 (popNumCells r) [VInt (Z.of_nat (countOfDistinct zs))]
    ∧ defaulted w1 (givenPops p o).2 (popLabels r) [VStr "Population"]
    ∧ ints_at w1 ci = Some (set_to_list (py_set zs)).
Proof.
  intros Hrd Hl Ht Hi Hz. unfold prepareData, getData. rewrite Hrd. simpl.
  unfold bind at 1, ret at 1. simpl.
  rewrite (bind_inr _ _ _ _ _ (useData_supplied _ _ _ _ _ _ _ Hl Ht Hi)).
  destruct (ensurePops_ints w (Raster tv iv (givenPops p o).1 (givenPops p o).2) zs Hz)
    as (r & w1 & Hr & Hun & Hrt & Hri & Hpn & Hpl).
  rewrite (bind_inr _ _ _ _ _ Hr).
  assert (ints_at w1 (spkInds r) = Some zs) as Hz1.
  { rewrite Hri. simpl. eapply ints_at_prefix; [apply Hun|done]. }
  rewrite (bind_inr _ _ _ _ _ (defineCellInds_ints _ _ _ Hz1)).
  eexists r, _, _. split; [reflexivity|].
  assert (heap w1 `prefix_of` heap w1 ++ [OList (VInt <$> set_to_list (py_set zs))])
    as Hpre by (by apply prefix_app_r).
  split; [|split; [done|split; [done|split; [|split]]]].
  - eapply unchanged_trans; [done|]. apply unchanged_alloc.
  - by eapply defaulted_prefix.
  - by eapply defaulted_prefix.
  - apply ints_at_new.
Qed.

Lemma normalize_supplied p w l o tv iv zs zs' :
  Arg.rasterData p = VRef l → heap w !! l = Some o →
  supplied o 0 "spkTimes" = Some tv → supplied o 1 "spkInds" = Some iv →
  ints_at w iv = Some zs →
  ordered cellTag None (Arg.orderBy p) zs = inr zs' →
  ∃ n w',
    normalize prepareRaster ambient_sim cellTag p w = (inr n, w')
    ∧ unchanged w w' ∧ spkTimes (data n) = tv
    ∧ ints_at w' (spkInds (data n)) = Some zs'
    ∧ defaulted w' (givenPops p o).1 (popNumCells (data n))
        [VInt (Z.of_nat (countOfDistinct zs))]
    ∧ defaulted w' (givenPops p o).2 (popLabels (data n)) [VStr "Population"]
    ∧ ints_at w' (cellInds n) = Some (set_to_list (py_set zs)).
Proof.
  intros Hrd Hl Ht Hi Hz Hord.
  destruct (prepareData_supplied p w l o tv iv zs Hrd Hl Ht Hi Hz)
    as (r & ci & w1 & Hprep & Hun & Hrt & Hri & Hpn & Hpl & Hci).
  rewrite normalize_prepareData, Hprep. simpl.
  assert (ints_at w1 (spkInds r) = Some zs) as Hz1.
  { rewrite Hri. eapply ints_at_prefix; [apply Hun|done]. }
  rewrite (orderInds_ints _ _ _ _ _ _ Hz1), Hord.
  eexists _, _. split; [reflexivity|]. simpl.
  assert (heap w1 `prefix_of` heap w1 ++ [OList (VInt <$> zs')])
    as Hpre by (by apply prefix_app_r).
  split; [|split; [done|split; [|split; [|split]]]].
  - eapply unchanged_trans; [done|]. apply unchanged_alloc.
  - apply ints_at_new.
  - by eapply defaulted_prefix.
  - by eapply defaulted_prefix.
  - by eapply ints_at_prefix.
Qed.

End Data.

(** ** Ordering *)

Section Ordering.

Variable prepareRaster : value → value → value → value → value → M value.
Variable ambient_sim : value.
Variable cellTag : value → Z → value → exn + value.

Lemma ordered_gid sim orderBy zs :
  orderBy = VStr "gid" → ordered cellTag sim orderBy zs = inr (py_sorted zs).
Proof. by intros ->. Qed.

(** Ordering by index returns the times object it was given and a new list
    of the indices, sorted. *)
Lemma normalize_gid p w o tv zs :
  raster_input w p o tv zs → Arg.orderBy p = VStr "gid" →
  ∃ n w',
    normalize prepareRaster ambient_sim cellTag p w = (inr n, w')
    ∧ unchanged w w' ∧ spkTimes (data n) = tv
    ∧ ints_at w' (spkInds (data n)) = Some (py_sorted zs)
    ∧ defaulted w' (givenPops p o).1 (popNumCells (data n))
        [VInt (Z.of_nat (countOfDistinct zs))]
    ∧ defaulted w' (givenPops p o).2 (popLabels (data n)) [VStr "Population"].
Proof.
  intros (l & iv & Hrd & Hl & Ht & Hi & Hz) Hgid.
  destruct (normalize_supplied prepareRaster ambient_sim cellTag p w l o tv iv zs
              (py_sorted zs) Hrd Hl Ht Hi Hz (ordered_gid None _ zs Hgid))
    as (n & w' & Hn & Hun & Htv & Hzs & Hpn & Hpl & _).
  by exists n, w'.
Qed.

(** C7.  For every valid input ordered by index ([orderBy='gid'], the
    source's name for the spec's ["index"]), normalization returns, and the
    indices it returns are in non-decreasing order. *)
Theorem index_order_nondecreasing p w o tv zs :
  raster_input w p o tv zs → Arg.orderBy p = VStr "gid" →
  ∃ n w' zs',
    normalize prepareRaster ambient_sim cellTag p w = (inr n, w')
    ∧ ints_at w' (spkInds (data n)) = Some zs'
    ∧ Sorted Z.le zs'.
Proof.
  intros Hin Hgid.
  destruct (normalize_gid p w o tv zs Hin Hgid) as (n & w' & Hn & _ & _ & Hzs & _).
  exists n, w', (py_sorted zs). split; [done|]. split; [done|].
  apply py_sorted_Sorted.
Qed.

(** C1.  On the spec's example the indices come back sorted, [0,1,2], and
    the times come back as they went in, [0.1,0.3,0.2]: the events returned
    are not the input events sorted by index, which are
    [(0.3,0),(0.2,1),(0.1,2)]. *)
Theorem index_order_leaves_times :
  ∃ n w',
    normalize prepareRaster ambient_sim cellTag example_args example_world = (inr n, w')
    ∧ list_at w' (spkTimes (data n)) = Some [VFloat (1 # 10); VFloat (3 # 10); VFloat (2 # 10)]
    ∧ ints_at w' (spkInds (data n)) = Some [0; 1; 2]
    ∧ sortPairs example_times [2; 0; 1]
      = [(VFloat (3 # 10), 0); (VFloat (2 # 10), 1); (VFloat (1 # 10), 2)].
Proof.
  eexists _, _. split; [by vm_compute|]. by vm_compute.
Qed.

(** C3 as amended.  Normalization does not compare the lengths of the two
    sequences: whatever their lengths, it returns a result that has as many
    times and as many indices as it was given. *)
Theorem lengths_not_checked p w o tv ts zs :
  raster_input w p o tv zs → list_at w tv = Some ts →
  Arg.orderBy p = VStr "gid" →
  ∃ n w' ts' zs',
    normalize prepareRaster ambient_sim cellTag p w = (inr n, w')
    ∧ list_at w' (spkTimes (data n)) = Some ts'
    ∧ ints_at w' (spkInds (data n)) = Some zs'
    ∧ length ts' = length ts ∧ length zs' = length zs.
Proof.
  intros Hin Hts Hgid.
  destruct (normalize_gid p w o tv zs Hin Hgid) as (n & w' & Hn & Hun & Htv & Hzs & _).
  exists n, w', ts, (py_sorted zs). split; [done|]. split; [|split; [done|split]].
  - rewrite Htv. eapply list_at_prefix; [apply Hun|done].
  - done.
  - apply py_sorted_length.
Qed.

End Ordering.

(** ** What a successful run tells *)

Lemma ensurePops_defaulted w r r' w' zs :
  ensurePops r w = (inr r', w') → ints_at w' (spkInds r) = Some zs →
  unchanged w w'
  ∧ defaulted w' (popNumCells r) (popNumCells r') [VInt (Z.of_nat (countOfDistinct zs))]
  ∧ defaulted w' (popLabels r) (popLabels r') [VStr "Population"].
Proof.
  intros H Hz. pose proof (framed_ensurePops _ _ _ _ H) as Hun.
  split; [done|]. unfold ensurePops in H.
  apply bind_inr_inv in H as (pn & w1 & Hpn & H).
  apply bind_inr_inv in H as (pl & w2 & Hpl & H).
  injection H as <- <-. unfold defaulted. simpl.
  assert (unchanged w1 w2) as Hun2.
  { destruct (is_none (popLabels r));
      [exact (framed_alloc _ _ _ _ Hpl)|exact (framed_ret _ _ _ _ Hpl)]. }
  split.
  - destruct (is_none (popNumCells r)); [|by injection Hpn as <- <-].
    apply bind_inr_inv in Hpn as (zs0 & w0 & Hz0 & Hpn).
    apply int_items_inv in Hz0 as [-> Hz0].
    injection Hpn as <- <-.
    assert (zs0 = zs) as ->.
    { pose proof (ints_at_prefix _ _ _ _ (proj1 Hun) Hz0) as Hz'. congruence. }
    eapply list_at_prefix; [apply Hun2|]. rewrite <-size_py_set. apply list_at_new.
  - destruct (is_none (popLabels r)); [|by injection Hpl as <- <-].
    injection Hpl as <- <-. apply list_at_new.
Qed.

Section Runs.

Variable prepareRaster : value → value → value → value → value → M value.
Variable ambient_sim : value.
Variable cellTag : value → Z → value → exn + value.

Lemma prepareData_inv p w sim r ci w1 :
  prepareData prepareRaster ambient_sim p w = (inr (sim, r, ci), w1) →
  is_none (popNumCells r) = false ∧ is_none (popLabels r) = false
  ∧ ∃ zs, ints_at w1 (spkInds r) = Some zs
    ∧ (Arg.rasterData p ≠ VNone →
       sim = None ∧ unchanged w w1
       ∧ ∃ l o, Arg.rasterData p = VRef l ∧ heap w !! l = Some o
           ∧ supplied o 0 "spkTimes" = Some (spkTimes r)
           ∧ supplied o 1 "spkInds" = Some (spkInds r)
           ∧ defaulted w1 (givenPops p o).1 (popNumCells r)
               [VInt (Z.of_nat (countOfDistinct zs))]
           ∧ defaulted w1 (givenPops p o).2 (popLabels r) [VStr "Population"]).
Proof.
  unfold prepareData. intros H.
  apply bind_inr_inv in H as (src & w0 & Hsrc & H).
  apply bind_inr_inv in H as (r0 & wa & Hr0 & H).
  apply bind_inr_inv in H as (r' & wb & Hr' & H).
  apply bind_inr_inv in H as (ci' & wc & Hci & H).
  injection H as <- <- <- <-.
  destruct (ensurePops_inv _ _ _ _ Hr') as (Ht & Hi & Hpn & Hpl).
  split; [done|]. split; [done|].
  destruct (defineCellInds_inv _ _ _ _ Hci) as [zs Hz].
  pose proof (framed_defineCellInds _ _ _ _ Hci) as Hunc.
  exists zs. split; [eapply ints_at_prefix; [apply Hunc|done]|].
  intros Hsome. unfold getData in Hsrc.
  destruct (is_none (Arg.rasterData p)) eqn:En; [by destruct (Arg.rasterData p)|].
  injection Hsrc as <- <-. simpl in *. split; [done|].
  destruct (useData_inv _ _ _ _ _ _ Hr0) as [-> Hshape].
  rewrite Hi in Hz.
  destruct (ensurePops_defaulted _ _ _ _ zs Hr' Hz) as (Hunb & Hdn & Hdl).
  split; [by eapply unchanged_trans|].
  destruct Hshape as [(l & o & Hrd & Hl & Hst & Hsi)|[c Hc]].
  - exists l, o. rewrite Ht, Hi. do 4 (split; [done|]).
    pose proof (useData_supplied w l o _ _ (Arg.popNumCells p) (Arg.popLabels p) Hl Hst Hsi)
      as Hfwd.
    rewrite <-Hrd, Hr0 in Hfwd. injection Hfwd as Hfwd.
    rewrite Hfwd in Hdn, Hdl. simpl in Hdn, Hdl.
    split; eapply defaulted_prefix; try apply Hunc; done.
  - rewrite Hc in Hz. done.
Qed.

Lemma normalize_inv p w n w' :
  normalize prepareRaster ambient_sim cellTag p w = (inr n, w') →
  ∃ sim r ci wa zs zs',
    prepareData prepareRaster ambient_sim p w = (inr (sim, r, ci), wa)
    ∧ ints_at wa (spkInds r) = Some zs
    ∧ ordered cellTag sim (Arg.orderBy p) zs = inr zs'
    ∧ n = Normalized (Raster (spkTimes r) (VRef (length (heap wa)))
                             (popNumCells r) (popLabels r)) ci
    ∧ w' = World (heap wa ++ [OList (VInt <$> zs')]) (rendered wa).
Proof.
  rewrite normalize_prepareData.
  destruct (prepareData _ _ p w) as [[e|[[sim r] ci]] wa] eqn:Hprep; [done|]. simpl.
  destruct (orderInds cellTag sim (Arg.orderBy p) r wa) as [[e|r2] w2] eqn:Hord; [done|].
  intros [= <- <-].
  destruct (orderInds_inv _ _ _ _ _ _ _ Hord) as [zs Hz].
  rewrite (orderInds_ints _ _ _ _ _ _ Hz) in Hord.
  destruct (ordered cellTag sim (Arg.orderBy p) zs) as [e|zs'] eqn:Ho; [done|].
  injection Hord as <- <-.
  by exists sim, r, ci, wa, zs, zs'.
Qed.

(** Whatever [normalize] returns or raises, it has at most created
    containers since the data source answered. *)
Lemma normalize_unchanged p w res w' :
  normalize prepareRaster ambient_sim cellTag p w = (res, w') →
  unchanged (getData prepareRaster ambient_sim p w).2 w'.
Proof.
  unfold normalize. unfold bind at 1.
  destruct (getData _ _ p w) as [[e|src] w0]; simpl.
  - intros [= _ <-]. apply unchanged_refl.
  - revert w0 res w'.
    change (framed (r <- useData src.1 (Arg.popNumCells p) (Arg.popLabels p) ;;
                    r <- ensurePops r ;;
                    cellInds <- defineCellInds r ;;
                    r <- orderInds cellTag src.2 (Arg.orderBy p) r ;;
                    ret (Normalized r cellInds))).
    auto 20 using framed_useData, framed_ensurePops, framed_defineCellInds,
      framed_orderInds with framed.
Qed.

Lemma getData_supplied p w :
  Arg.rasterData p ≠ VNone →
  getData prepareRaster ambient_sim p w = (inr (Arg.rasterData p, None), w).
Proof.
  intros H. unfold getData. by destruct (Arg.rasterData p).
Qed.

Lemma normalize_again p w n w1 o p' :
  normalize prepareRaster ambient_sim cellTag p w = (inr n, w1) →
  Arg.orderBy p = VStr "gid" →
  supplied o 0 EmptyString = Some (spkTimes (data n)) ∧ supplied o 1 EmptyString = Some (spkInds (data n))
  ∧ supplied o 2 EmptyString = Some (popNumCells (data n))
  ∧ supplied o 3 EmptyString = Some (popLabels (data n)) →
  (∀ its, o ≠ ODict its) →
  Arg.rasterData p' = VRef (length (heap w1)) → Arg.orderBy p' = VStr "gid" →
  ∃ n' w2,
    normalize prepareRaster ambient_sim cellTag p'
      (World (heap w1 ++ [o]) (rendered w1)) = (inr n', w2)
    ∧ same_result w1 n w2 n'.
Proof.
  intros Hn Hgid (Ho0 & Ho1 & Ho2 & Ho3) Hseq Hrd' Hgid'.
  destruct (normalize_inv _ _ _ _ Hn)
    as (sim & r & ci & wa & zs & zs' & Hprep & Hz & Hord & -> & ->).
  rewrite (ordered_gid cellTag sim _ zs Hgid) in Hord. injection Hord as <-.
  destruct (prepareData_inv _ _ _ _ _ _ Hprep) as (Hpn & Hpl & _).
  simpl in *.
  set (w1 := World (heap wa ++ [OList (VInt <$> py_sorted zs)]) (rendered wa)) in *.
  set (w1' := World (heap w1 ++ [o]) (rendered w1)).
  assert (∀ k, supplied o 0 k = supplied o 0 EmptyString ∧ supplied o 1 k = supplied o 1 EmptyString
               ∧ supplied o 2 k = supplied o 2 EmptyString ∧ supplied o 3 k = supplied o 3 EmptyString)
    as Hk.
  { intros k. destruct o as [xs|xs|its]; [done..|by destruct (Hseq its)]. }
  assert (raster_input w1' p' o (spkTimes r) (py_sorted zs)) as Hin.
  { exists (length (heap w1)), (VRef (length (heap wa))).
    split; [done|]. split; [apply lookup_new|].
    split; [by rewrite (proj1 (Hk _))|].
    split; [by rewrite (proj1 (proj2 (Hk _)))|].
    eapply ints_at_prefix; [|apply (ints_at_new wa (rendered wa))].
    simpl. by apply prefix_app_r. }
  destruct (normalize_gid prepareRaster ambient_sim cellTag p' w1' o _ _ Hin Hgid')
    as (n' & w2 & Hn' & Hun' & Ht' & Hz' & Hdn' & Hdl').
  exists n', w2. split; [done|].
  split; [by simpl|]. split; [|split].
  - exists (py_sorted zs). simpl. split; [apply ints_at_new|].
    by rewrite py_sorted_idemp in Hz'.
  - left. simpl. unfold defaulted, givenPops in Hdn'. simpl in Hdn'.
    rewrite (proj1 (proj2 (proj2 (Hk _)))), Ho2 in Hdn'. simpl in Hdn'.
    by rewrite Hpn in Hdn'.
  - left. simpl. unfold defaulted, givenPops in Hdl'. simpl in Hdl'.
    rewrite (proj2 (proj2 (proj2 (Hk _)))), Ho3 in Hdl'. simpl in Hdl'.
    by rewrite Hpl in Hdl'.
Qed.

(** C8.  Normalization by index is idempotent: when a result is fed back
    as a list or a tuple of its four fields, normalizing again by index
    returns the same raster. *)
Theorem normalize_idempotent p w n w1 o p' :
  normalize prepareRaster ambient_sim cellTag p w = (inr n, w1) →
  Arg.orderBy p = VStr "gid" →
  o = OList (fed_back n) ∨ o = OTuple (fed_back n) →
  Arg.rasterData p' = VRef (length (heap w1)) → Arg.orderBy p' = VStr "gid" →
  ∃ n' w2,
    normalize prepareRaster ambient_sim cellTag p'
      (World (heap w1 ++ [o]) (rendered w1)) = (inr n', w2)
    ∧ same_result w1 n w2 n'.
Proof.
  intros Hn Hgid Ho Hrd' Hgid'.
  apply (normalize_again p w n w1 o p' Hn Hgid); [|by destruct Ho as [-> | ->]|done..].
  by destruct Ho as [-> | ->].
Qed.

(** C6.  For every valid input without population metadata (none in the
    input, none in the parameters), the data blocks return
    [popNumCells = [countOfDistinct(indices)]] and
    [popLabels = ["Population"]]; every result of normalization carries
    these two lists, and normalization by index does return one. *)
Theorem population_default p w o tv zs :
  raster_input w p o tv zs →
  supplied o 2 "popNumCells" = None → supplied o 3 "popLabels" = None →
  Arg.popNumCells p = VNone → Arg.popLabels p = VNone →
  (∃ r ci w1,
     prepareData prepareRaster ambient_sim p w = (inr (None, r, ci), w1)
     ∧ list_at w1 (popNumCells r) = Some [VInt (Z.of_nat (countOfDistinct zs))]
     ∧ list_at w1 (popLabels r) = Some [VStr "Population"])
  ∧ (∀ n w',
       normalize prepareRaster ambient_sim cellTag p w = (inr n, w') →
       list_at w' (popNumCells (data n)) = Some [VInt (Z.of_nat (countOfDistinct zs))]
       ∧ list_at w' (popLabels (data n)) = Some [VStr "Population"])
  ∧ (Arg.orderBy p = VStr "gid" →
     ∃ n w', normalize prepareRaster ambient_sim cellTag p w = (inr n, w')).
Proof.
  intros Hin Ho2 Ho3 Hpn Hpl.
  pose proof Hin as (l & iv & Hrd & Hl & Ht & Hi & Hz).
  destruct (prepareData_supplied prepareRaster ambient_sim p w l o tv iv zs Hrd Hl Ht Hi Hz)
    as (r & ci & w1 & Hprep & Hun & _ & _ & Hdn & Hdl & _).
  unfold defaulted, givenPops in Hdn, Hdl. simpl in Hdn, Hdl.
  rewrite Ho2, Hpn in Hdn. rewrite Ho3, Hpl in Hdl. simpl in Hdn, Hdl.
  split; [by exists r, ci, w1|]. split.
  - intros n w' Hn.
    destruct (normalize_inv _ _ _ _ Hn)
      as (sim' & r' & ci' & wa & zs0 & zs' & Hprep' & _ & _ & -> & ->).
    rewrite Hprep in Hprep'. injection Hprep' as <- <- <- <-. simpl.
    split; (eapply list_at_prefix; [|done]); simpl; by apply prefix_app_r.
  - intros Hgid.
    destruct (normalize_gid prepareRaster ambient_sim cellTag p w o tv zs Hin Hgid)
      as (n & w' & Hn & _).
    by exists n, w'.
Qed.


(** C2 as amended.  No call of [plotRaster] returns.  When one of the data
    blocks (lines 213-245) raises, the call raises that exception;
    otherwise it raises [NameError] for [title] at line 251, after the
    plotter, the figure and the axis have been asked for: the names at the
    scatter call are never reached, and nothing is drawn. *)
Theorem plotRaster_always_raises gui p w :
  ∃ e w',
    plotRaster prepareRaster ambient_sim cellTag (module_globals gui) p w = (inl e, w')
    ∧ match prepareData prepareRaster ambient_sim p w with
      | (inr _, w1) =>
          e = NameError "title"
          ∧ w' = World (heap w1)
                       (rendered w1 ++ [NewPlotter; CreateFig; GetAxis (Arg.axis p)])
      | (inl e1, w1) => e = e1 ∧ w' = w1
      end.
Proof.
  rewrite plotRaster_prepareData.
  destruct (prepareData _ _ p w) as [[e1|d] w1].
  - by exists e1, w1.
  - rewrite createPlotter_module. by eexists _, _.
Qed.

End Runs.

(** ** The legend *)

Lemma mapM_pure {A B} (f : A → M B) (g : A → B) xs w :
  (∀ x, x ∈ xs → f x w = (inr (g x), w)) →
  mapM f xs w = (inr (g <$> xs), w).
Proof.
  induction xs as [|x xs IH]; intros Hf; [done|].
  cbn [mapM]. rewrite (bind_inr _ _ _ _ _ (Hf x ltac:(left))).
  rewrite (bind_inr _ _ _ _ _ (IH (λ y Hy, Hf y ltac:(by right)))). done.
Qed.

Lemma sum_list_Z_app xs ys : sum_list_Z (xs ++ ys) = sum_list_Z xs + sum_list_Z ys.
Proof. unfold sum_list_Z. induction xs as [|x xs IH]; simpl; lia. Qed.

Lemma sum_take_S sizes k :
  sum_list_Z (take (k + 1) sizes) = sum_list_Z (take k sizes) + default 0 (sizes !! k).
Proof.
  destruct (sizes !! k) as [x|] eqn:E; simpl.
  - rewrite Nat.add_1_r, (take_S_r _ _ _ E), sum_list_Z_app. unfold sum_list_Z. simpl. lia.
  - apply lookup_ge_None in E. rewrite !take_ge by lia. lia.
Qed.

Lemma slice_to_at w v xs i :
  list_at w v = Some xs → slice_to v i w = (inr (take i xs), w).
Proof.
  unfold list_at, slice_to. destruct v; try done.
  destruct (heap w !! l) as [o|] eqn:Hl; [|done].
  rewrite (bind_inr _ _ _ _ _ (read_at _ _ _ Hl)).
  destruct o; by intros [= ->].
Qed.

Lemma slice_sum w v sizes i :
  ints_at w v = Some sizes →
  (xs <- slice_to v i ;; py_sum xs) w = (inr (sum_list_Z (take i sizes)), w).
Proof.
  intros Hs. apply ints_at_list_at in Hs.
  rewrite (bind_inr _ _ _ _ _ (slice_to_at _ _ _ i Hs)).
  unfold py_sum. by rewrite <-fmap_take, as_ints_fmap.
Qed.

Lemma count_hits (zs : list Z) lo hi :
  length (filter (λ h, h = true) ((λ x, in_range x lo hi) <$> zs))
  = countIn zs (lo, hi).
Proof.
  unfold countIn. simpl. induction zs as [|z zs IH]; [done|].
  rewrite fmap_cons, !filter_cons.
  assert (in_range z lo hi = true ↔ lo ≤ z < hi) as Hiff.
  { unfold in_range. rewrite andb_true_iff, Z.leb_le, Z.ltb_lt. done. }
  repeat case_decide; simpl; rewrite ?IH; try done; tauto.
Qed.

Lemma popCount_ints w r zs sizes k :
  ints_at w (spkInds r) = Some zs → ints_at w (popNumCells r) = Some sizes →
  popCount r k w = (inr (countIn zs (boundary sizes k)), w).
Proof.
  intros Hz Hs. unfold popCount.
  rewrite (bind_inr _ _ _ _ _ (int_items_ints_at _ _ _ Hz)).
  erewrite bind_inr; last first.
  { apply (mapM_pure _ (λ x, in_range x (sum_list_Z (take k sizes))
                                        (sum_list_Z (take (k + 1) sizes)))).
    intros x _.
    rewrite (bind_inr _ _ _ _ _ (slice_sum _ _ _ k Hs)).
    by rewrite (bind_inr _ _ _ _ _ (slice_sum _ _ _ (k + 1) Hs)). }
  unfold ret, boundary. by rewrite count_hits, sum_take_S.
Qed.

Lemma items_list_at w v xs : list_at w v = Some xs → items v w = (inr xs, w).
Proof.
  unfold list_at, items. destruct v; try done.
  destruct (heap w !! l) as [o|] eqn:Hl; [|done].
  rewrite (bind_inr _ _ _ _ _ (read_at _ _ _ Hl)).
  destruct o; by intros [= ->].
Qed.

(** C9.  When the legend is drawn, it has one entry per population label,
    and the label of entry [k] is the population's label followed by, in
    brackets and in decimal, the number of spike indices in the boundary
    range [[sum(sizes[:k]), sum(sizes[:k+1]))] of population [k].  The
    legend is drawn when [mpatches] was imported, [popColors] gives a
    colour to every label and [legendKwargs] has no ['handles'] of its
    own. *)
Theorem legend_counts G m legend lc colors kwargs kw r w names zs sizes :
  G !! "mpatches" = Some m →
  truthy legend w = (inr true, w) →
  legendKwargs kwargs w = (inr kw, w) → assoc "handles" kw = None →
  heap w !! lc = Some (ODict colors) →
  (∀ name, name ∈ names → is_Some (assoc name colors)) →
  list_at w (popLabels r) = Some (VStr <$> names) →
  ints_at w (spkInds r) = Some zs →
  ints_at w (popNumCells r) = Some sizes →
  ∃ hs,
    addLegend G legend (VRef lc) kwargs r w
      = (inr tt, World (heap w) (rendered w ++ [Legend hs kw]))
    ∧ length hs = length names
    ∧ ∀ k name, names !! k = Some name →
        label <$> hs !! k
        = Some (name +:+ " (" +:+ pretty (countIn zs (boundary sizes k)) +:+ ")").
Proof.
  intros Hm Hon Hkw Hnh Hlc Hcol Hpl Hz Hs.
  set (g := λ ip : nat * value,
         match ip.2 with
         | VStr name => Patch (default VNone (assoc name colors))
                              (legend_label name (countIn zs (boundary sizes ip.1)))
         | _ => Patch VNone EmptyString
         end).
  exists (g <$> imap pair (VStr <$> names)).
  split; [|split].
  - unfold addLegend. rewrite (bind_inr _ _ _ _ _ Hon).
    rewrite (bind_inr _ _ _ _ _ (items_list_at _ _ _ Hpl)).
    erewrite bind_inr; last first.
    { apply (mapM_pure _ g). intros [k v] Hin.
      apply list_elem_of_lookup in Hin as [i Hi].
      rewrite list_lookup_imap, list_lookup_fmap in Hi.
      destruct (names !! i) as [name|] eqn:En; [|done].
      injection Hi as <- <-. unfold legendHandle, load_global. rewrite Hm.
      unfold bind at 1, ret at 1. cbn [fst snd].
      destruct (Hcol name) as [c Hc]; [by eapply list_elem_of_lookup_2|].
      rewrite (bind_inr _ _ _ _ _ (getitem_at _ _ _ _ _ Hlc Hc)).
      rewrite (bind_inr _ _ _ _ _ (popCount_ints _ _ _ _ _ Hz Hs)).
      unfold g. simpl. by rewrite Hc. }
    by rewrite (bind_inr _ _ _ _ _ Hkw), Hnh.
  - by rewrite length_fmap, length_imap, length_fmap.
  - intros k name Hk.
    rewrite list_lookup_fmap, list_lookup_imap, list_lookup_fmap, Hk. done.
Qed.

(** ** Synchrony lines *)

Lemma readonly_forM_ {A} (body : A → M unit) xs :
  (∀ x, readonly (body x)) → readonly (forM_ xs body).
Proof.
  intros Hb. induction xs as [|x xs IH]; simpl.
  - apply readonly_ret.
  - apply readonly_bind; [done|]. by intros _.
Qed.

Lemma readonly_unbound {A} G x (k : value → M A) :
  G !! x = None → readonly (bind (load_global G x) k).
Proof.
  intros HG w res w'. unfold bind, load_global. rewrite HG.
  by intros [= _ <-].
Qed.

(** With the names the module binds, the synchrony block changes nothing:
    [linewidth] is looked up before each line is drawn, so no line is ever
    drawn. *)
Lemma addSyncLines_module_readonly gui syncLines cellInds r :
  readonly (addSyncLines (module_globals gui) syncLines cellInds r).
Proof.
  unfold addSyncLines, spikeTimesOf.
  apply readonly_bind; [apply readonly_truthy|]. intros [|]; [|apply readonly_ret].
  apply readonly_bind; [apply readonly_int_items|]. intros cells.
  apply readonly_forM_. intros c.
  apply readonly_bind; [auto 10 with readonly|]. intros ts.
  apply readonly_forM_. intros t.
  apply readonly_bind; [apply readonly_py_len|]. intros n.
  apply readonly_unbound, module_unbound. set_solver.
Qed.

Lemma positions_paired (c : Z) (all : list value) zs ts (j : nat → nat) :
  (length zs ≤ length ts)%nat →
  (∀ i, (i < length zs)%nat → all !! j i = ts !! i) →
  (λ i, default VNone (all !! i)) <$>
    (fst <$> filter (λ p : nat * Z, p.2 = c) (imap (λ i z, (j i, z)) zs))
  = pairedWith ts zs c.
Proof.
  unfold pairedWith. revert ts j.
  induction zs as [|z zs IH]; intros ts j Hlen Hj; [by destruct ts|].
  destruct ts as [|t ts]; [simpl in Hlen; lia|].
  cbn [imap zip zip_with]. rewrite !filter_cons. simpl.
  assert (default VNone (all !! j 0%nat) = t) as Ht.
  { by rewrite (Hj 0%nat) by (simpl; lia). }
  assert ((λ i, default VNone (all !! i)) <$>
            (fst <$> filter (λ p : nat * Z, p.2 = c) (imap ((λ i z, (j i, z)) ∘ S) zs))
          = fst <$> filter (λ p : value * Z, p.2 = c) (zip ts zs)) as Htl.
  { apply (IH ts (j ∘ S)); [simpl in Hlen; lia|].
    intros i Hi. simpl. apply (Hj (S i)). simpl. lia. }
  case_decide; [|exact Htl].
  rewrite !fmap_cons. cbn [fst]. rewrite Ht. f_equal. exact Htl.
Qed.

Lemma spikeTimesOf_paired w r times zs c :
  list_at w (spkTimes r) = Some times → ints_at w (spkInds r) = Some zs →
  (length zs ≤ length times)%nat →
  spikeTimesOf r c w = (inr (pairedWith times zs c), w).
Proof.
  intros Ht Hz Hlen. unfold spikeTimesOf.
  rewrite (bind_inr _ _ _ _ _ (int_items_ints_at _ _ _ Hz)).
  rewrite <-(positions_paired c times zs times id Hlen) by done.
  apply mapM_pure. intros i Hi.
  assert (i < length zs)%nat as Hlt.
  { apply list_elem_of_fmap in Hi as ([i' z] & -> & Hin).
    apply list_elem_of_filter in Hin as [_ Hin].
    apply list_elem_of_lookup in Hin as [k Hk].
    rewrite list_lookup_imap in Hk.
    destruct (zs !! k) eqn:E; [|done]. injection Hk as <- <-.
    by apply lookup_lt_Some in E. }
  destruct (lookup_lt_is_Some_2 times i ltac:(lia)) as [t Hti].
  rewrite Hti. simpl. unfold list_at in Ht.
  destruct (spkTimes r) as [| | | | | |l]; try done.
  destruct (heap w !! l) as [o|] eqn:Hl; [|done].
  apply (subscript_at _ _ o); [done|by destruct o|].
  destruct o; simpl; congruence.
Qed.

Section Markers.

Variable G : gmap string value.
Variable lw : value.
Hypothesis linewidth_bound : G !! "linewidth" = Some lw.

Lemma py_len_list_at w v xs : list_at w v = Some xs → py_len v w = (inr (length xs), w).
Proof.
  unfold list_at. destruct v; try done.
  destruct (heap w !! l) as [o|] eqn:Hl; [|done].
  rewrite (py_len_at _ _ _ Hl). destruct o; by intros [= ->].
Qed.

Lemma draw_line ci cells t w :
  list_at w ci = Some cells →
  (ymax <- py_len ci ;;
   linewidth <- load_global G "linewidth" ;;
   emit (Vlines t 0 ymax "gray" "dotted" linewidth)) w
  = (inr tt, World (heap w)
       (rendered w ++ [Vlines t 0 (length cells) "gray" "dotted" lw])).
Proof using linewidth_bound.
  intros Hci. rewrite (bind_inr _ _ _ _ _ (py_len_list_at _ _ _ Hci)).
  unfold load_global. by rewrite linewidth_bound.
Qed.

Lemma draw_lines ci cells ts w :
  list_at w ci = Some cells →
  forM_ ts (λ spike_time,
      ymax <- py_len ci ;;
      linewidth <- load_global G "linewidth" ;;
      emit (Vlines spike_time 0 ymax "gray" "dotted" linewidth)) w
  = (inr tt, World (heap w)
       (rendered w ++ ((λ t, Vlines t 0 (length cells) "gray" "dotted" lw) <$> ts))).
Proof using linewidth_bound.
  revert w. induction ts as [|t ts IH]; intros w Hci.
  - simpl. unfold ret. rewrite app_nil_r. by destruct w.
  - cbn [forM_]. rewrite (bind_inr _ _ _ _ _ (draw_line _ _ t _ Hci)).
    rewrite IH by done. simpl. by rewrite <-app_assoc.
Qed.

(** Were [linewidth] bound, the synchrony block would draw one line per
    time it reads, cell after cell. *)
Lemma addSyncLines_bound ci r w times zs cells :
  list_at w (spkTimes r) = Some times → ints_at w (spkInds r) = Some zs →
  ints_at w ci = Some cells → (length zs ≤ length times)%nat →
  addSyncLines G (VBool true) ci r w
  = (inr tt, World (heap w)
       (rendered w ++ ((λ t, Vlines t 0 (length cells) "gray" "dotted" lw)
                       <$> syncMarkers times zs cells))).
Proof using linewidth_bound.
  intros Ht Hz Hci Hlen. unfold addSyncLines.
  unfold bind at 1, truthy, ret at 1.
  rewrite (bind_inr _ _ _ _ _ (int_items_ints_at _ _ _ Hci)).
  pose proof (ints_at_list_at _ _ _ Hci) as Hcl.
  assert (length cells = length (VInt <$> cells)) as -> by (by rewrite length_fmap).
  generalize (VInt <$> cells) Hcl. clear Hci Hcl. intros cvs Hcl.
  unfold syncMarkers. revert w Ht Hz Hcl.
  induction cells as [|c cells IH]; intros w Ht Hz Hcl.
  - simpl. unfold ret. rewrite app_nil_r. by destruct w.
  - cbn [forM_]. unfold bind at 1.
    rewrite (bind_inr _ _ _ _ _ (spikeTimesOf_paired _ _ _ _ c Ht Hz Hlen)).
    rewrite (draw_lines _ _ _ _ Hcl).
    rewrite IH by done. simpl. by rewrite fmap_app, <-app_assoc.
Qed.

End Markers.

Lemma filter_by_key_perm {A} (cells : list Z) (p : A * Z) (ps : list (A * Z)) :
  NoDup cells → p.2 ∈ cells →
  cells ≫= (λ c, filter (λ q : A * Z, q.2 = c) (p :: ps))
  ≡ₚ p :: (cells ≫= (λ c, filter (λ q : A * Z, q.2 = c) ps)).
Proof.
  induction 1 as [|c cells Hc Hnd IH]; [by intros ?%elem_of_nil|].
  rewrite elem_of_cons. intros Hin. rewrite !bind_cons, filter_cons.
  destruct (decide (p.2 = c)) as [Heq|Hne].
  - simpl. do 2 f_equiv.
    assert (∀ c', c' ∈ cells →
                  filter (λ q : A * Z, q.2 = c') (p :: ps)
                  = filter (λ q : A * Z, q.2 = c') ps) as Hrest.
    { intros c' Hc'. rewrite filter_cons. case_decide; [|done]. congruence. }
    clear -Hrest. induction cells as [|c' cells IH]; [done|].
    rewrite !bind_cons, Hrest by left. f_equiv. apply IH.
    intros c'' ?. apply Hrest. by right.
  - destruct Hin as [?|Hin]; [done|].
    rewrite (IH Hin). by rewrite Permutation_middle.
Qed.

(** Taken together, the times read for the distinct indices are the input
    times, each once. *)
Lemma syncMarkers_perm times zs cells :
  NoDup cells → (∀ z, z ∈ zs → z ∈ cells) → length times = length zs →
  syncMarkers times zs cells ≡ₚ times.
Proof.
  intros Hnd Hcov Hlen. unfold syncMarkers, pairedWith.
  assert (zs ⊆ cells) as Hsub by done.
  assert (∀ ps : list (value * Z), (∀ p, p ∈ ps → p.2 ∈ cells) →
            cells ≫= (λ c, fst <$> filter (λ q : value * Z, q.2 = c) ps) ≡ₚ fst <$> ps)
    as Hgo.
  { induction ps as [|p ps IH]; intros Hps.
    - simpl. clear. induction cells as [|c cells IH]; [done|]. by rewrite bind_cons.
    - rewrite fmap_cons, <-IH by (intros q ?; apply Hps; by right).
      transitivity (fst <$> (cells ≫= (λ c, filter (λ q : value * Z, q.2 = c) (p :: ps)))).
      { clear. induction cells as [|c cells IH']; [done|].
        by rewrite !bind_cons, fmap_app, IH'. }
      rewrite filter_by_key_perm by (done || apply Hps; left).
      rewrite fmap_cons. f_equiv.
      clear. induction cells as [|c cells IH']; [done|].
      by rewrite !bind_cons, fmap_app, IH'. }
  rewrite Hgo.
  - by rewrite fst_zip by lia.
  - intros [t z] Hin. simpl. apply Hcov.
    apply list_elem_of_lookup in Hin as [i Hi].
    apply lookup_zip_with_Some in Hi as (t' & z' & [= -> ->] & _ & Hz).
    by eapply list_elem_of_lookup_2.
Qed.

(** With the indices sorted and the times left in place, the lines of all
    the cells together would still be one per input time. *)
Lemma syncMarkers_sorted_perm times zs :
  length times = length zs →
  syncMarkers times (py_sorted zs) (set_to_list (py_set zs)) ≡ₚ times.
Proof.
  intros Hlen. apply syncMarkers_perm.
  - apply set_to_list_NoDup.
  - intros z Hz. apply elem_of_set_to_list. by rewrite <-(py_sorted_perm zs).
  - by rewrite py_sorted_length.
Qed.

(** But a cell gets the times that stand where its index stands after the
    sort, not its own: on the spec's example cell 0, which spiked at 0.3,
    gets 0.1. *)
Lemma pairedWith_after_sort :
  pairedWith example_times (py_sorted [2; 0; 1]) 0 = [VFloat (1 # 10)]
  ∧ pairedWith example_times [2; 0; 1] 0 = [VFloat (3 # 10)].
Proof. by vm_compute. Qed.

(** ** The claims at concrete inputs *)

Lemma example_is_input :
  raster_input example_world example_args (OTuple [VRef 0%nat; VRef 1%nat]) (VRef 0%nat)
    [2; 0; 1].
Proof. by exists 2%nat, (VRef 1%nat). Defined.

Lemma index_order_nondecreasing_witness :
  raster_input example_world example_args (OTuple [VRef 0%nat; VRef 1%nat]) (VRef 0%nat)
    [2; 0; 1]
  ∧ Arg.orderBy example_args = VStr "gid"
  ∧ ∃ n w' zs',
      normalize no_prepareRaster (VExt "sim") no_cellTag example_args example_world
        = (inr n, w')
      ∧ ints_at w' (spkInds (data n)) = Some zs'
      ∧ Sorted Z.le zs'.
Proof.
  split; [exact example_is_input|]. split; [reflexivity|].
  apply (index_order_nondecreasing no_prepareRaster (VExt "sim") no_cellTag
           example_args example_world (OTuple [VRef 0%nat; VRef 1%nat]) (VRef 0%nat)
           [2; 0; 1]); [exact example_is_input|reflexivity].
Defined.

(** C3, the claim as stated fails: three times and two indices are
    accepted, and normalization returns three times and two indices. *)
Lemma length_mismatch_accepted :
  ∃ n w',
    normalize no_prepareRaster (VExt "sim") no_cellTag example_args mismatch_world
      = (inr n, w')
    ∧ length <$> list_at w' (spkTimes (data n)) = Some 3%nat
    ∧ length <$> ints_at w' (spkInds (data n)) = Some 2%nat.
Proof. eexists _, _. split; [by vm_compute|]. by vm_compute. Qed.

Lemma lengths_not_checked_witness :
  raster_input mismatch_world example_args (OTuple [VRef 0%nat; VRef 1%nat]) (VRef 0%nat)
    [2; 0]
  ∧ list_at mismatch_world (VRef 0%nat) = Some example_times
  ∧ Arg.orderBy example_args = VStr "gid"
  ∧ ∃ n w' ts' zs',
      normalize no_prepareRaster (VExt "sim") no_cellTag example_args mismatch_world
        = (inr n, w')
      ∧ list_at w' (spkTimes (data n)) = Some ts'
      ∧ ints_at w' (spkInds (data n)) = Some zs'
      ∧ length ts' = length example_times ∧ length zs' = length [2; 0].
Proof.
  assert (raster_input mismatch_world example_args (OTuple [VRef 0%nat; VRef 1%nat])
            (VRef 0%nat) [2; 0]) as Hin by (by exists 2%nat, (VRef 1%nat)).
  split; [exact Hin|]. split; [reflexivity|]. split; [reflexivity|].
  apply (lengths_not_checked no_prepareRaster (VExt "sim") no_cellTag example_args
           mismatch_world (OTuple [VRef 0%nat; VRef 1%nat]) (VRef 0%nat) example_times
           [2; 0]); [exact Hin|reflexivity|reflexivity].
Defined.


Lemma ten_is_input :
  raster_input ten_world ten_args
    (ODict [("spkTimes", VRef 0%nat); ("spkInds", VRef 1%nat)]) (VRef 0%nat)
    [3; 1; 4; 1; 5; 9; 2; 6; 5; 3].
Proof. by exists 2%nat, (VRef 1%nat). Defined.


Lemma population_default_witness :
  raster_input population_world example_args (OList [VRef 0%nat; VRef 1%nat]) (VRef 0%nat)
    [0; 1; 2; 2; 1]
  ∧ countOfDistinct [0; 1; 2; 2; 1] = 3%nat
  ∧ (∃ r ci w1,
       prepareData no_prepareRaster (VExt "sim") example_args population_world
         = (inr (None, r, ci), w1)
       ∧ list_at w1 (popNumCells r) = Some [VInt 3]
       ∧ list_at w1 (popLabels r) = Some [VStr "Population"])
  ∧ (∀ n w',
       normalize no_prepareRaster (VExt "sim") no_cellTag example_args population_world
         = (inr n, w') →
       list_at w' (popNumCells (data n)) = Some [VInt 3]
       ∧ list_at w' (popLabels (data n)) = Some [VStr "Population"])
  ∧ (Arg.orderBy example_args = VStr "gid" →
     ∃ n w',
       normalize no_prepareRaster (VExt "sim") no_cellTag example_args population_world
         = (inr n, w')).
Proof.
  assert (raster_input population_world example_args (OList [VRef 0%nat; VRef 1%nat])
            (VRef 0%nat) [0; 1; 2; 2; 1]) as Hin by (by exists 2%nat, (VRef 1%nat)).
  split; [exact Hin|]. split; [reflexivity|].
  apply (population_default no_prepareRaster (VExt "sim") no_cellTag example_args
           population_world (OList [VRef 0%nat; VRef 1%nat]) (VRef 0%nat) [0; 1; 2; 2; 1]);
    [exact Hin|reflexivity..].
Defined.

Lemma normalize_idempotent_witness :
  ∃ n w1,
    normalize no_prepareRaster (VExt "sim") no_cellTag example_args example_world
      = (inr n, w1)
    ∧ Arg.orderBy example_args = VStr "gid"
    ∧ Arg.rasterData (with_rasterData (VRef (length (heap w1))) example_args)
      = VRef (length (heap w1))
    ∧ ∃ n' w2,
        normalize no_prepareRaster (VExt "sim") no_cellTag
          (with_rasterData (VRef (length (heap w1))) example_args)
          (World (heap w1 ++ [OList (fed_back n)]) (rendered w1)) = (inr n', w2)
        ∧ same_result w1 n w2 n'.
Proof.
  eexists _, _. split; [vm_compute; reflexivity|]. split; [reflexivity|].
  split; [reflexivity|].
  apply (normalize_idempotent no_prepareRaster (VExt "sim") no_cellTag example_args
           example_world);
    [vm_compute; reflexivity|reflexivity|left; reflexivity|reflexivity|reflexivity].
Defined.

Lemma legend_counts_witness :
  module_globals true !! "mpatches" = Some (VExt "matplotlib.patches")
  ∧ "E" +:+ " (" +:+ pretty (countIn [0; 1; 1; 2] (boundary [2; 1] 0)) +:+ ")" = "E (3)"
  ∧ "I" +:+ " (" +:+ pretty (countIn [0; 1; 1; 2] (boundary [2; 1] 1)) +:+ ")" = "I (1)"
  ∧ ∃ hs,
      addLegend (module_globals true) (VBool true) (VRef 4%nat) [] legend_raster legend_world
        = (inr tt, World (heap legend_world) (rendered legend_world ++ [Legend hs []]))
      ∧ length hs = length ["E"; "I"]
      ∧ ∀ k name, ["E"; "I"] !! k = Some name →
          label <$> hs !! k
          = Some (name +:+ " (" +:+ pretty (countIn [0; 1; 1; 2] (boundary [2; 1] k))
                  +:+ ")").
Proof.
  split; [exact module_binds_mpatches|]. split; [reflexivity|]. split; [reflexivity|].
  apply (legend_counts (module_globals true) (VExt "matplotlib.patches") (VBool true)
           4%nat [("E", VStr "red"); ("I", VStr "blue")] [] [] legend_raster legend_world
           ["E"; "I"] [0; 1; 1; 2] [2; 1]);
    [exact module_binds_mpatches|reflexivity|reflexivity|reflexivity|reflexivity| |
     reflexivity|reflexivity|reflexivity].
  intros name Hin.
  apply elem_of_cons in Hin as [->|Hin]; [by eexists|].
  apply elem_of_cons in Hin as [->|Hin]; [by eexists|].
  by apply elem_of_nil in Hin.
Defined.

(** C2, the claim as stated fails: a dict without ['spkTimes'] makes the
    call raise [KeyError] at line 224, not a name error; the plotter block
    is not reached. *)
Lemma empty_dict_raises_KeyError :
  plotRaster no_prepareRaster (VExt "sim") no_cellTag (module_globals true)
    (with_rasterData (VRef 0%nat) Arg.default) empty_dict_world
  = (inl (KeyError "spkTimes"), empty_dict_world).
Proof. by vm_compute. Qed.

(** * Further properties of the body *)

(** ** Input that does not have the two sequences *)

Lemma getitem_missing w l its k :
  heap w !! l = Some (ODict its) → assoc k its = None →
  getitem (VRef l) k w = (inl (KeyError k), w).
Proof.
  intros Hl Hk. unfold getitem. rewrite (bind_inr _ _ _ _ _ (read_at _ _ _ Hl)).
  by rewrite Hk.
Qed.

Lemma subscript_out w l o xs i :
  heap w !! l = Some o → (o = OList xs ∨ o = OTuple xs) → xs !! i = None →
  subscript (VRef l) i w = (inl IndexError, w).
Proof.
  intros Hl Ho Hi. unfold subscript. rewrite (bind_inr _ _ _ _ _ (read_at _ _ _ Hl)).
  destruct Ho as [-> | ->]; by rewrite Hi.
Qed.

Section Failures.

Variable prepareRaster : value → value → value → value → value → M value.
Variable ambient_sim : value.
Variable cellTag : value → Z → value → exn + value.
Variable G : gmap string value.

(** An exception of [useData] on supplied data is the exception of the
    call, and of normalization. *)
Lemma useData_raises p w e w1 :
  Arg.rasterData p ≠ VNone →
  useData (Arg.rasterData p) (Arg.popNumCells p) (Arg.popLabels p) w = (inl e, w1) →
  plotRaster prepareRaster ambient_sim cellTag G p w = (inl e, w1)
  ∧ normalize prepareRaster ambient_sim cellTag p w = (inl e, w1).
Proof.
  intros Hsome Hu.
  assert (prepareData prepareRaster ambient_sim p w = (inl e, w1)) as Hprep.
  { unfold prepareData. rewrite (bind_inr _ _ _ _ _ (getData_supplied _ _ _ _ Hsome)).
    simpl. by rewrite (bind_inl _ _ _ _ _ Hu). }
  by rewrite plotRaster_prepareData, normalize_prepareData, Hprep.
Qed.

(** X1.  A dict without ['spkTimes'], or with it and without ['spkInds'],
    makes the call raise [KeyError] for the first of the two keys that is
    missing; nothing has been created or rendered. *)
Theorem missing_key_raises p w l its :
  Arg.rasterData p = VRef l → heap w !! l = Some (ODict its) →
  assoc "spkTimes" its = None ∨ assoc "spkInds" its = None →
  let k := if assoc "spkTimes" its is Some _ then "spkInds" else "spkTimes" in
  plotRaster prepareRaster ambient_sim cellTag G p w = (inl (KeyError k), w)
  ∧ normalize prepareRaster ambient_sim cellTag p w = (inl (KeyError k), w).
Proof.
  intros Hrd Hl Hmiss k. apply useData_raises; [by rewrite Hrd|].
  rewrite Hrd. unfold useData.
  rewrite (bind_inr _ _ _ _ _ (is_dict_at _ _ _ Hl)). subst k.
  destruct (assoc "spkTimes" its) as [tv|] eqn:Et.
  - destruct Hmiss as [?|Hi]; [done|].
    rewrite (bind_inr _ _ _ _ _ (getitem_at _ _ _ _ _ Hl Et)).
    by rewrite (bind_inl _ _ _ _ _ (getitem_missing _ _ _ _ Hl Hi)).
  - by rewrite (bind_inl _ _ _ _ _ (getitem_missing _ _ _ _ Hl Et)).
Qed.

(** X2.  A list or tuple of fewer than two items makes the call raise
    [IndexError]; nothing has been created or rendered. *)
Theorem short_sequence_raises p w l o xs :
  Arg.rasterData p = VRef l → heap w !! l = Some o →
  o = OList xs ∨ o = OTuple xs → (length xs < 2)%nat →
  plotRaster prepareRaster ambient_sim cellTag G p w = (inl IndexError, w)
  ∧ normalize prepareRaster ambient_sim cellTag p w = (inl IndexError, w).
Proof.
  intros Hrd Hl Ho Hlen. apply useData_raises; [by rewrite Hrd|].
  rewrite Hrd. unfold useData.
  rewrite (bind_inr _ _ _ _ _ (is_dict_at _ _ _ Hl)).
  assert (subscript (VRef l) 1 w = (inl IndexError, w)) as H1.
  { apply (subscript_out _ _ o xs); [done..|]. apply lookup_ge_None. lia. }
  destruct (xs !! 0%nat) as [x0|] eqn:E0.
  - assert (subscript (VRef l) 0 w = (inr x0, w)) as H0.
    { apply (subscript_at _ _ o); destruct Ho as [-> | ->]; done. }
    destruct Ho as [-> | ->];
      by rewrite (bind_inr _ _ _ _ _ H0), (bind_inl _ _ _ _ _ H1).
  - assert (subscript (VRef l) 0 w = (inl IndexError, w)) as H0
      by (by apply (subscript_out _ _ o xs)).
    destruct Ho as [-> | ->]; by rewrite (bind_inl _ _ _ _ _ H0).
Qed.

End Failures.

Lemma get_lt s i : (i < String.length s)%nat → is_Some (String.get i s).
Proof.
  revert i. induction s as [|c s IH]; intros i Hi; simpl in *; [lia|].
  destruct i as [|i]; [by eexists|]. apply IH. lia.
Qed.

(** X3.  A string is not loaded as a file: it is indexed like any sequence,
    so its first two characters become the times and the indices; a string
    of fewer than two characters raises [IndexError]. *)
Theorem string_is_indexed s pn pl w :
  match String.get 0 s, String.get 1 s with
  | Some a, Some b =>
      ∃ r, useData (VStr s) pn pl w = (inr r, w)
           ∧ spkTimes r = VStr (String a EmptyString)
           ∧ spkInds r = VStr (String b EmptyString)
  | _, _ => useData (VStr s) pn pl w = (inl IndexError, w)
  end.
Proof.
  unfold useData, is_dict, subscript, py_len, bind, ret, raise. simpl.
  destruct (String.get 0 s) as [a|]; [|done]. simpl.
  destruct (String.get 1 s) as [b|]; [|done]. simpl.
  case_bool_decide as H2; simpl.
  - destruct (get_lt s 2 H2) as [c2 ->]. simpl.
    case_bool_decide as H3; simpl.
    + destruct (get_lt s 3 H3) as [c3 ->]. simpl. by eexists.
    + by eexists.
  - case_bool_decide as H3; [lia|]. simpl. by eexists.
Qed.

(** ** The further properties at concrete inputs *)

Lemma missing_key_raises_witness :
  Arg.rasterData (with_rasterData (VRef 1%nat) Arg.default) = VRef 1%nat
  ∧ heap no_inds_world !! 1%nat = Some (ODict [("spkTimes", VRef 0%nat)])
  ∧ assoc "spkInds" [("spkTimes", VRef 0%nat)] = None
  ∧ plotRaster no_prepareRaster (VExt "sim") no_cellTag (module_globals true)
      (with_rasterData (VRef 1%nat) Arg.default) no_inds_world
    = (inl (KeyError "spkInds"), no_inds_world)
  ∧ normalize no_prepareRaster (VExt "sim") no_cellTag
      (with_rasterData (VRef 1%nat) Arg.default) no_inds_world
    = (inl (KeyError "spkInds"), no_inds_world).
Proof.
  split; [reflexivity|]. split; [reflexivity|]. split; [reflexivity|].
  apply (missing_key_raises no_prepareRaster (VExt "sim") no_cellTag (module_globals true)
           (with_rasterData (VRef 1%nat) Arg.default) no_inds_world 1%nat
           [("spkTimes", VRef 0%nat)]); [reflexivity|reflexivity|right; reflexivity].
Defined.

Lemma short_sequence_raises_witness :
  Arg.rasterData (with_rasterData (VRef 1%nat) Arg.default) = VRef 1%nat
  ∧ heap one_item_world !! 1%nat = Some (OTuple [VRef 0%nat])
  ∧ (length [VRef 0%nat] < 2)%nat
  ∧ plotRaster no_prepareRaster (VExt "sim") no_cellTag (module_globals true)
      (with_rasterData (VRef 1%nat) Arg.default) one_item_world
    = (inl IndexError, one_item_world)
  ∧ normalize no_prepareRaster (VExt "sim") no_cellTag
      (with_rasterData (VRef 1%nat) Arg.default) one_item_world
    = (inl IndexError, one_item_world).
Proof.
  split; [reflexivity|]. split; [reflexivity|]. split; [simpl; lia|].
  apply (short_sequence_raises no_prepareRaster (VExt "sim") no_cellTag (module_globals true)
           (with_rasterData (VRef 1%nat) Arg.default) one_item_world 1%nat
           (OTuple [VRef 0%nat]) [VRef 0%nat]);
    [reflexivity|reflexivity|right; reflexivity|simpl; lia].
Defined.

(** ** Population lists and cell indices *)

Section Populations.

Variable prepareRaster : value → value → value → value → value → M value.
Variable ambient_sim : value.
Variable cellTag : value → Z → value → exn + value.

(** X4.  Population metadata inside [rasterData] wins over the
    [popNumCells] and [popLabels] arguments: what the input gives is used
    as it is, and a [None] given by the input gets the default, whatever
    the argument is. *)
Theorem input_metadata_wins p w o tv zs :
  raster_input w p o tv zs → Arg.orderBy p = VStr "gid" →
  ∃ n w',
    normalize prepareRaster ambient_sim cellTag p w = (inr n, w')
    ∧ (∀ v, supplied o 2 "popNumCells" = Some v →
         if is_none v
         then list_at w' (popNumCells (data n)) = Some [VInt (Z.of_nat (countOfDistinct zs))]
         else popNumCells (data n) = v)
    ∧ (∀ v, supplied o 3 "popLabels" = Some v →
         if is_none v
         then list_at w' (popLabels (data n)) = Some [VStr "Population"]
         else popLabels (data n) = v).
Proof.
  intros Hin Hgid.
  destruct (normalize_gid prepareRaster ambient_sim cellTag p w o tv zs Hin Hgid)
    as (n & w' & Hn & _ & _ & _ & Hpn & Hpl).
  exists n, w'. split; [done|]. unfold defaulted, givenPops in Hpn, Hpl.
  split; intros v Hv; simpl in Hpn, Hpl.
  - by rewrite Hv in Hpn.
  - by rewrite Hv in Hpl.
Qed.

(** X5.  Whatever the input and the arguments, a raster that normalization
    returns has population sizes and population labels: neither is
    [None]. *)
Theorem pops_never_None p w n w' :
  normalize prepareRaster ambient_sim cellTag p w = (inr n, w') →
  popNumCells (data n) ≠ VNone ∧ popLabels (data n) ≠ VNone.
Proof.
  intros Hn.
  destruct (normalize_inv _ _ _ _ _ _ _ Hn)
    as (sim & r & ci & wa & zs & zs' & Hprep & _ & _ & -> & _).
  destruct (prepareData_inv _ _ _ _ _ _ _ _ Hprep) as (Hpn & Hpl & _).
  simpl. split; intros H; by rewrite H in *.
Qed.

(** X6.  [cellInds] holds every index that spiked, once: it has no
    duplicates, the same members as the indices, and as many items as
    there are distinct indices. *)
Theorem cellInds_distinct p w o tv zs :
  raster_input w p o tv zs → Arg.orderBy p = VStr "gid" →
  ∃ n w' cs,
    normalize prepareRaster ambient_sim cellTag p w = (inr n, w')
    ∧ ints_at w' (cellInds n) = Some cs
    ∧ NoDup cs ∧ (∀ z, z ∈ cs ↔ z ∈ zs) ∧ length cs = countOfDistinct zs.
Proof.
  intros (l & iv & Hrd & Hl & Ht & Hi & Hz) Hgid.
  destruct (normalize_supplied prepareRaster ambient_sim cellTag p w l o tv iv zs
              (py_sorted zs) Hrd Hl Ht Hi Hz (ordered_gid cellTag None _ zs Hgid))
    as (n & w' & Hn & _ & _ & _ & _ & _ & Hci).
  exists n, w', (set_to_list (py_set zs)). split; [done|]. split; [done|].
  split; [apply set_to_list_NoDup|]. split; [apply elem_of_set_to_list|].
  by rewrite <-size_py_set.
Qed.

(** X9.  Ordering supplied data by anything but ['gid'] raises [NameError]
    for [sim] as soon as there is a spike: the local [sim] is bound only
    when the data come from the simulation. *)
Theorem tag_order_without_sim p w o tv zs :
  raster_input w p o tv zs → is_str (Arg.orderBy p) "gid" = false → zs ≠ [] →
  ∃ w', normalize prepareRaster ambient_sim cellTag p w = (inl (NameError "sim"), w')
        ∧ unchanged w w'.
Proof.
  intros (l & iv & Hrd & Hl & Ht & Hi & Hz) Hgid Hne.
  destruct (prepareData_supplied prepareRaster ambient_sim p w l o tv iv zs Hrd Hl Ht Hi Hz)
    as (r & ci & w1 & Hprep & Hun & _ & Hri & _).
  exists w1. split; [|done].
  rewrite normalize_prepareData, Hprep. simpl.
  assert (ints_at w1 (spkInds r) = Some zs) as Hz1.
  { rewrite Hri. eapply ints_at_prefix; [apply Hun|done]. }
  rewrite (orderInds_ints _ _ _ _ _ _ Hz1). unfold ordered. rewrite Hgid.
  by destruct zs.
Qed.

End Populations.

(** ** Supplied data and the simulation *)

Lemma ordered_without_sim (c c' : value → Z → value → exn + value) orderBy zs :
  ordered c None orderBy zs = ordered c' None orderBy zs.
Proof. unfold ordered. destruct (is_str orderBy "gid"); [done|]. by destruct zs. Qed.

Lemma orderInds_without_sim (c c' : value → Z → value → exn + value) orderBy r w :
  orderInds c None orderBy r w = orderInds c' None orderBy r w.
Proof.
  destruct (int_items (spkInds r) w) as [[e|zs] w1] eqn:E.
  - unfold orderInds.
    destruct (is_str orderBy "gid");
      by rewrite !(bind_inl _ _ _ _ _ (bind_inl _ _ _ _ _ E)).
  - apply int_items_inv in E as [-> Hz].
    by rewrite !(orderInds_ints _ _ _ _ _ _ Hz), (ordered_without_sim c c').
Qed.

(** X10.  With supplied data, normalization does not consult the
    simulation: its outcome is the same whatever the data source, the
    ambient [sim] and the cell tags are. *)
Theorem supplied_data_ignores_sim pr pr' a a' (c c' : value → Z → value → exn + value) p w :
  Arg.rasterData p ≠ VNone →
  normalize pr a c p w = normalize pr' a' c' p w.
Proof.
  intros Hsome. rewrite !normalize_prepareData.
  assert (∀ q b, prepareData q b p w
                 = (r <- useData (Arg.rasterData p) (Arg.popNumCells p) (Arg.popLabels p) ;;
                    r <- ensurePops r ;;
                    cellInds <- defineCellInds r ;;
                    ret (None, r, cellInds)) w) as Hprep.
  { intros q b. unfold prepareData.
    by rewrite (bind_inr _ _ _ _ _ (getData_supplied q b p w Hsome)). }
  rewrite (Hprep pr a), (Hprep pr' a').
  match goal with |- context [match ?m w with _ => _ end] => destruct (m w) as [[e|d] w1] eqn:E end;
    [done|].
  assert (d.1.1 = None) as ->.
  { apply bind_inr_inv in E as (r0 & w0 & _ & E).
    apply bind_inr_inv in E as (r1 & w2 & _ & E).
    apply bind_inr_inv in E as (ci & w3 & _ & E).
    by injection E as <- <-. }
  by rewrite (orderInds_without_sim c c').
Qed.

(** ** These properties at concrete inputs *)

Lemma given_pops_is_input :
  raster_input given_pops_world given_pops_args
    (ODict [("spkTimes", VRef 0%nat); ("spkInds", VRef 1%nat);
            ("popNumCells", VRef 2%nat); ("popLabels", VNone)])
    (VRef 0%nat) [2; 0; 1].
Proof. by exists 3%nat, (VRef 1%nat). Defined.

Lemma input_metadata_wins_witness :
  Arg.popLabels given_pops_args = VRef 4%nat
  ∧ ∃ n w',
      normalize no_prepareRaster (VExt "sim") no_cellTag given_pops_args given_pops_world
        = (inr n, w')
      ∧ popNumCells (data n) = VRef 2%nat
      ∧ list_at w' (popLabels (data n)) = Some [VStr "Population"].
Proof.
  split; [reflexivity|].
  destruct (input_metadata_wins no_prepareRaster (VExt "sim") no_cellTag given_pops_args
              given_pops_world _ (VRef 0%nat) [2; 0; 1] given_pops_is_input eq_refl)
    as (n & w' & Hn & Hpn & Hpl).
  exists n, w'. split; [exact Hn|]. split.
  - exact (Hpn (VRef 2%nat) eq_refl).
  - exact (Hpl VNone eq_refl).
Defined.

Lemma pops_never_None_witness :
  ∃ n w',
    normalize no_prepareRaster (VExt "sim") no_cellTag example_args example_world
      = (inr n, w')
    ∧ popNumCells (data n) ≠ VNone ∧ popLabels (data n) ≠ VNone.
Proof.
  eexists _, _. split; [vm_compute; reflexivity|].
  eapply (pops_never_None no_prepareRaster (VExt "sim") no_cellTag example_args
            example_world).
  vm_compute; reflexivity.
Defined.

Lemma example_raster_input :
  raster_input example_world example_args (OTuple [VRef 0%nat; VRef 1%nat]) (VRef 0%nat)
    [2; 0; 1].
Proof. by exists 2%nat, (VRef 1%nat). Defined.

Lemma cellInds_distinct_witness :
  Arg.orderBy example_args = VStr "gid"
  ∧ ∃ n w' cs,
      normalize no_prepareRaster (VExt "sim") no_cellTag example_args example_world
        = (inr n, w')
      ∧ ints_at w' (cellInds n) = Some cs
      ∧ NoDup cs ∧ (∀ z, z ∈ cs ↔ z ∈ [2; 0; 1]) ∧ length cs = countOfDistinct [2; 0; 1].
Proof.
  split; [reflexivity|].
  apply (cellInds_distinct no_prepareRaster (VExt "sim") no_cellTag example_args
           example_world _ (VRef 0%nat) [2; 0; 1] example_raster_input eq_refl).
Defined.

Lemma by_pop_is_input :
  raster_input example_world by_pop_args (OTuple [VRef 0%nat; VRef 1%nat]) (VRef 0%nat)
    [2; 0; 1].
Proof. by exists 2%nat, (VRef 1%nat). Defined.

Lemma tag_order_without_sim_witness :
  is_str (Arg.orderBy by_pop_args) "gid" = false
  ∧ ∃ w', normalize stub_prepareRaster (VExt "sim") const_cellTag by_pop_args example_world
          = (inl (NameError "sim"), w')
          ∧ unchanged example_world w'.
Proof.
  split; [reflexivity|].
  apply (tag_order_without_sim stub_prepareRaster (VExt "sim") const_cellTag by_pop_args
           example_world _ (VRef 0%nat) [2; 0; 1] by_pop_is_input eq_refl).
  discriminate.
Defined.

Lemma supplied_data_ignores_sim_witness :
  Arg.rasterData example_args ≠ VNone
  ∧ normalize no_prepareRaster (VExt "sim") no_cellTag example_args example_world
    = normalize stub_prepareRaster (VExt "other sim") const_cellTag example_args example_world.
Proof.
  split; [discriminate|].
  apply (supplied_data_ignores_sim no_prepareRaster stub_prepareRaster (VExt "sim")
           (VExt "other sim") no_cellTag const_cellTag example_args example_world).
  discriminate.
Defined.

(** ** Ordering by a tag *)

Lemma mapE_length {A B} (f : A → exn + B) xs ys :
  mapE f xs = inr ys → length ys = length xs.
Proof.
  revert ys. induction xs as [|x xs IH]; intros ys; simpl.
  - by intros [= <-].
  - destruct (f x) as [e|y]; [done|]. destruct (mapE f xs) as [e|ys']; [done|].
    intros [= <-]. simpl. f_equal. by apply IH.
Qed.

Lemma mapE_pure {A B} (f : A → exn + B) (g : A → B) xs :
  (∀ x, x ∈ xs → f x = inr (g x)) → mapE f xs = inr (g <$> xs).
Proof.
  induction xs as [|x xs IH]; intros Hf; [done|]. simpl.
  rewrite (Hf x) by left. rewrite IH; [done|]. intros y Hy. apply Hf. by right.
Qed.

Lemma keyed_snd {K} (f : value → option K) kxs l :
  keyed f kxs = Some l → l.*2 = kxs.*2.
Proof.
  revert l. induction kxs as [|[k x] kxs IH]; intros l; simpl.
  - by intros [= <-].
  - destruct (f k) as [k'|]; [|done].
    destruct (keyed f kxs) as [l'|]; simpl; [|done].
    intros [= <-]. simpl. f_equal. by apply IH.
Qed.

Lemma sorted_by_key_perm kxs zs' :
  sorted_by_key kxs = inr zs' → zs' ≡ₚ kxs.*2.
Proof.
  unfold sorted_by_key.
  destruct kxs as [|p1 [|p2 kxs]]; [by intros [= <-]..|].
  destruct (keyed num (p1 :: p2 :: kxs)) as [l|] eqn:En.
  { intros [= <-]. by rewrite stable_sort_perm, (keyed_snd _ _ _ En). }
  destruct (keyed str (p1 :: p2 :: kxs)) as [l|] eqn:Es.
  { intros [= <-]. by rewrite stable_sort_perm, (keyed_snd _ _ _ Es). }
  by destruct (existsb _ _).
Qed.

Lemma ordered_perm (cellTag : value → Z → value → exn + value) sim orderBy zs zs' :
  ordered cellTag sim orderBy zs = inr zs' → zs' ≡ₚ zs.
Proof.
  unfold ordered. destruct (is_str orderBy "gid").
  { intros [= <-]. apply py_sorted_perm. }
  destruct zs as [|z zs]; [by intros [= <-]|].
  destruct sim as [s|]; [|done].
  destruct (mapE _ (z :: zs)) as [e|keys] eqn:Ek; [done|].
  intros Hs. rewrite (sorted_by_key_perm _ _ Hs).
  rewrite snd_zip; [done|]. by rewrite (mapE_length _ _ _ Ek).
Qed.

(** X7.  Whatever the ordering key, the ordering block returns the times
    object it was given and a new list holding the indices it was given,
    permuted: no index is lost or repeated, the times are never reordered,
    and no container that existed is changed. *)
Theorem orderInds_permutes (cellTag : value → Z → value → exn + value) sim orderBy r w r' w' :
  orderInds cellTag sim orderBy r w = (inr r', w') →
  spkTimes r' = spkTimes r ∧ unchanged w w'
  ∧ ∃ zs zs', ints_at w (spkInds r) = Some zs
              ∧ ints_at w' (spkInds r') = Some zs' ∧ zs' ≡ₚ zs.
Proof.
  intros H. pose proof (framed_orderInds _ _ _ _ _ _ _ H) as Hun.
  destruct (orderInds_inv _ _ _ _ _ _ _ H) as [zs Hz].
  rewrite (orderInds_ints _ _ _ _ _ _ Hz) in H.
  destruct (ordered cellTag sim orderBy zs) as [e|zs'] eqn:Ho; [done|].
  injection H as <- <-. split; [done|]. split; [done|].
  exists zs, zs'. split; [done|]. split; [apply ints_at_new|].
  by eapply ordered_perm.
Qed.

Lemma insert_sorted_on {A} (lt : A → A → bool) (R : relation A) (P : A → Prop) x s :
  (∀ a b, P a → P b → lt a b = true → R a b) →
  (∀ a b, P a → P b → lt a b = false → R b a) →
  P x → Forall P s → Sorted R s → Sorted R (insert_sorted lt x s).
Proof.
  intros Ht Hf Px Ps Hs. induction Hs as [|y s Hs IH Hhd]; simpl.
  - repeat constructor.
  - apply Forall_cons in Ps as [Py Ps].
    destruct (lt y x) eqn:E.
    + constructor; [by apply IH|].
      destruct Hhd as [|z s Hyz]; simpl.
      * constructor. by apply Ht.
      * destruct (lt z x); constructor; [done|]. by apply Ht.
    + constructor; [by constructor|]. constructor. by apply Hf.
Qed.

Lemma stable_sort_on {A} (lt : A → A → bool) (R : relation A) (P : A → Prop) xs :
  (∀ a b, P a → P b → lt a b = true → R a b) →
  (∀ a b, P a → P b → lt a b = false → R b a) →
  Forall P xs → Sorted R (stable_sort lt xs).
Proof.
  intros Ht Hf. induction xs as [|x xs IH]; intros HP; simpl; [constructor|].
  apply Forall_cons in HP as [Px HP].
  apply (insert_sorted_on lt R P); [done..| |by apply IH].
  by rewrite stable_sort_perm.
Qed.

Lemma Sorted_map {A B} (f : A → B) (R1 : relation A) (R2 : relation B) l :
  (∀ x y, R1 x y → R2 (f x) (f y)) → Sorted R1 l → Sorted R2 (f <$> l).
Proof.
  intros HR. induction 1 as [|x l Hs IH Hhd]; [constructor|].
  rewrite fmap_cons. constructor; [done|].
  destruct Hhd; [constructor|]. rewrite fmap_cons. constructor. by apply HR.
Qed.

Lemma zip_keys {A B} (f : A → B) (xs : list A) :
  zip (f <$> xs) xs = (λ x, (f x, x)) <$> xs.
Proof. induction xs as [|x xs IH]; [done|]. rewrite !fmap_cons. cbn [zip_with]. by rewrite IH. Qed.

Lemma keyed_num_ints (k : Z → Z) zs :
  keyed num ((λ z, (VInt (k z), z)) <$> zs) = Some ((λ z, (inject_Z (k z), z)) <$> zs).
Proof. induction zs as [|z zs IH]; [done|]. rewrite !fmap_cons. simpl. by rewrite IH. Qed.

Lemma sorted_by_key_ints (k : Z → Z) zs :
  ∃ zs', sorted_by_key ((λ z, (VInt (k z), z)) <$> zs) = inr zs'
         ∧ Sorted (λ a b, k a ≤ k b) zs'.
Proof.
  destruct zs as [|z1 [|z2 zs]].
  - exists []. split; [done|constructor].
  - exists [z1]. split; [done|repeat constructor].
  - eexists. split.
    { pose proof (keyed_num_ints k (z1 :: z2 :: zs)) as Hk.
      unfold sorted_by_key. rewrite !fmap_cons in Hk |- *. cbv beta iota.
      rewrite Hk. reflexivity. }
    apply (Sorted_map snd (λ p q : Q * Z, k p.2 ≤ k q.2)); [done|].
    apply (stable_sort_on _ _ (λ p : Q * Z, p.1 = inject_Z (k p.2))).
    + intros [qa a] [qb b]. simpl. intros -> ->. unfold Qltb.
      rewrite negb_true_iff. intros Hle.
      destruct (Z.le_gt_cases (k a) (k b)) as [?|Hgt]; [done|].
      assert (Qle_bool (inject_Z (k b)) (inject_Z (k a)) = true) as Hc.
      { apply Qle_bool_iff. rewrite <-Zle_Qle. lia. }
      congruence.
    + intros [qa a] [qb b]. simpl. intros -> ->. unfold Qltb.
      rewrite negb_false_iff. intros Hle%Qle_bool_iff. by rewrite <-Zle_Qle in Hle.
    + apply Forall_fmap, Forall_true. done.
Qed.

Lemma ordered_ints (cellTag : value → Z → value → exn + value) s orderBy (k : Z → Z) zs :
  is_str orderBy "gid" = false →
  (∀ x, x ∈ zs → cellTag s x orderBy = inr (VInt (k x))) →
  ∃ zs', ordered cellTag (Some s) orderBy zs = inr zs'
         ∧ Sorted (λ a b, k a ≤ k b) zs'.
Proof.
  intros Hgid Hk. unfold ordered. rewrite Hgid.
  destruct zs as [|z zs]; [exists []; split; [done|constructor]|].
  rewrite (mapE_pure _ (λ x, VInt (k x)) _ Hk), zip_keys.
  apply sorted_by_key_ints.
Qed.

(** X8.  With a simulation at hand, ordering by a tag whose values are
    ints returns the indices in non-decreasing order of their tag values,
    none lost and none repeated. *)
Theorem tag_order_sorted (cellTag : value → Z → value → exn + value) s orderBy (k : Z → Z) r w zs :
  ints_at w (spkInds r) = Some zs → is_str orderBy "gid" = false →
  (∀ x, x ∈ zs → cellTag s x orderBy = inr (VInt (k x))) →
  ∃ r' w' zs',
    orderInds cellTag (Some s) orderBy r w = (inr r', w')
    ∧ ints_at w' (spkInds r') = Some zs'
    ∧ zs' ≡ₚ zs ∧ Sorted (λ a b, k a ≤ k b) zs'.
Proof.
  intros Hz Hgid Hk.
  destruct (ordered_ints cellTag s orderBy k zs Hgid Hk) as (zs' & Ho & Hs).
  rewrite (orderInds_ints _ _ _ _ _ _ Hz), Ho.
  eexists _, _, zs'. split; [reflexivity|]. split; [apply ints_at_new|].
  split; [by eapply ordered_perm|done].
Qed.

Lemma orderInds_permutes_witness :
  ∃ r' w',
    orderInds neg_cellTag (Some (VExt "sim")) (VStr "pop") example_raster example_world
      = (inr r', w')
    ∧ spkTimes r' = spkTimes example_raster ∧ unchanged example_world w'
    ∧ ∃ zs zs', ints_at example_world (spkInds example_raster) = Some zs
                ∧ ints_at w' (spkInds r') = Some zs' ∧ zs' ≡ₚ zs.
Proof.
  eexists _, _. split; [vm_compute; reflexivity|].
  eapply (orderInds_permutes neg_cellTag (Some (VExt "sim")) (VStr "pop") example_raster
            example_world).
  vm_compute; reflexivity.
Defined.

Lemma tag_order_sorted_witness :
  ints_at example_world (spkInds example_raster) = Some [2; 0; 1]
  ∧ is_str (VStr "pop") "gid" = false
  ∧ ∃ r' w' zs',
      orderInds neg_cellTag (Some (VExt "sim")) (VStr "pop") example_raster example_world
        = (inr r', w')
      ∧ ints_at w' (spkInds r') = Some zs'
      ∧ zs' ≡ₚ [2; 0; 1] ∧ Sorted (λ a b, - a ≤ - b) zs'.
Proof.
  split; [reflexivity|]. split; [reflexivity|].
  apply (tag_order_sorted neg_cellTag (VExt "sim") (VStr "pop") Z.opp example_raster
           example_world [2; 0; 1]); [reflexivity|reflexivity|].
  intros x _. reflexivity.
Defined.

(** ** The legend block, when it cannot draw *)

Lemma mapM_first_failure {A B} (f : A → M B) (g : A → B) pre y post e w :
  (∀ x, x ∈ pre → f x w = (inr (g x), w)) → f y w = (inl e, w) →
  mapM f (pre ++ y :: post) w = (inl e, w).
Proof.
  intros Hpre Hy. induction pre as [|x pre IH]; simpl.
  - by rewrite (bind_inl _ _ _ _ _ Hy).
  - rewrite (bind_inr _ _ _ _ _ (Hpre x ltac:(left))).
    by rewrite (bind_inl _ _ _ _ _ (IH (λ z Hz, Hpre z ltac:(by right)))).
Qed.

Lemma legendHandle_ok G m lc colors r w zs sizes k name c :
  G !! "mpatches" = Some m → heap w !! lc = Some (ODict colors) →
  assoc name colors = Some c →
  ints_at w (spkInds r) = Some zs → ints_at w (popNumCells r) = Some sizes →
  legendHandle G (VRef lc) r k (VStr name) w
  = (inr (Patch c (legend_label name (countIn zs (boundary sizes k)))), w).
Proof.
  intros Hm Hlc Hc Hz Hs. unfold legendHandle, load_global. rewrite Hm.
  unfold bind at 1, ret at 1.
  rewrite (bind_inr _ _ _ _ _ (getitem_at _ _ _ _ _ Hlc Hc)).
  by rewrite (bind_inr _ _ _ _ _ (popCount_ints _ _ _ _ _ Hz Hs)).
Qed.

(** X11.  With [popColors] left at its default, [None], the legend of a
    raster that has a label raises [TypeError] at [popColors[pop]]: nothing
    is drawn. *)
Theorem legend_needs_popColors G m legend kwargs r w name rest :
  G !! "mpatches" = Some m →
  truthy legend w = (inr true, w) →
  list_at w (popLabels r) = Some (VStr name :: rest) →
  addLegend G legend VNone kwargs r w = (inl (TypeError "not subscriptable"), w).
Proof.
  intros Hm Hon Hpl. unfold addLegend. rewrite (bind_inr _ _ _ _ _ Hon).
  rewrite (bind_inr _ _ _ _ _ (items_list_at _ _ _ Hpl)).
  apply bind_inl. cbn [imap mapM]. apply bind_inl.
  unfold legendHandle, load_global. by rewrite Hm.
Qed.

(** X12.  When [popColors] lacks the colour of a label, the legend raises
    [KeyError] for the first such label, and nothing is drawn: no legend is
    made of the labels that do have a colour. *)
Theorem legend_missing_colour G m legend lc colors kwargs r w pre name post zs sizes :
  G !! "mpatches" = Some m →
  truthy legend w = (inr true, w) →
  heap w !! lc = Some (ODict colors) →
  list_at w (popLabels r) = Some (VStr <$> (pre ++ name :: post)) →
  (∀ n, n ∈ pre → is_Some (assoc n colors)) → assoc name colors = None →
  ints_at w (spkInds r) = Some zs → ints_at w (popNumCells r) = Some sizes →
  addLegend G legend (VRef lc) kwargs r w = (inl (KeyError name), w).
Proof.
  intros Hm Hon Hlc Hpl Hpre Hname Hz Hs. unfold addLegend.
  rewrite (bind_inr _ _ _ _ _ Hon).
  rewrite (bind_inr _ _ _ _ _ (items_list_at _ _ _ Hpl)).
  apply bind_inl. rewrite fmap_app, fmap_cons, imap_app, imap_cons.
  apply (mapM_first_failure _
           (λ ip : nat * value,
              match ip.2 with
              | VStr n => Patch (default VNone (assoc n colors))
                                (legend_label n (countIn zs (boundary sizes ip.1)))
              | _ => Patch VNone EmptyString
              end)).
  - intros [k v] Hin. apply list_elem_of_lookup in Hin as [i Hi].
    rewrite list_lookup_imap, list_lookup_fmap in Hi.
    destruct (pre !! i) as [n|] eqn:En; [|done]. injection Hi as <- <-.
    destruct (Hpre n) as [c Hc]; [by eapply list_elem_of_lookup_2|].
    cbn [fst snd]. rewrite Hc.
    by apply (legendHandle_ok G m _ colors _ _ zs sizes).
  - cbn [fst snd]. unfold legendHandle, load_global. rewrite Hm.
    unfold bind at 1, ret at 1.
    by rewrite (bind_inl _ _ _ _ _ (getitem_missing _ _ _ _ Hlc Hname)).
Qed.

(** X13.  When the module was imported without the GUI, [mpatches] is not
    bound, and the legend of a raster that has a label raises [NameError]
    for it; nothing is drawn. *)
Theorem legend_without_gui legend popColors kwargs r w pop rest :
  truthy legend w = (inr true, w) →
  list_at w (popLabels r) = Some (pop :: rest) →
  addLegend (module_globals false) legend popColors kwargs r w
  = (inl (NameError "mpatches"), w).
Proof.
  intros Hon Hpl. unfold addLegend. rewrite (bind_inr _ _ _ _ _ Hon).
  rewrite (bind_inr _ _ _ _ _ (items_list_at _ _ _ Hpl)).
  apply bind_inl. cbn [imap mapM]. apply bind_inl.
  unfold legendHandle. by apply bind_inl.
Qed.

(** ** What the legend counts *)

Lemma countIn_cons z zs range : countIn (z :: zs) range = (countIn [z] range + countIn zs range)%nat.
Proof. unfold countIn. rewrite !filter_cons, filter_nil. by case_decide. Qed.

Lemma sum_list_fmap_add {A} (f g : A → nat) xs :
  sum_list ((λ x, f x + g x)%nat <$> xs) = (sum_list (f <$> xs) + sum_list (g <$> xs))%nat.
Proof. induction xs as [|x xs IH]; [done|]. rewrite !fmap_cons. simpl. lia. Qed.

(** An index is in the range of one population when the sizes cover it,
    and of none when it lies below the first range. *)
Lemma in_one_range sizes off z :
  Forall (λ s, 0 ≤ s) sizes →
  sum_list ((λ k, countIn [z - off] (boundary sizes k)) <$> seq 0 (length sizes))
  = if decide (off ≤ z < off + sum_list_Z sizes) then 1%nat else 0%nat.
Proof.
  intros Hs. revert off. induction Hs as [|s sizes Hs0 Hs IH]; intros off.
  - simpl. case_decide; [|done]. unfold sum_list_Z in *. simpl in *. lia.
  - cbn [length]. rewrite <-cons_seq, <-fmap_S_seq, fmap_cons, <-list_fmap_compose.
    cbn [sum_list sum_list_with].
    assert (∀ k, countIn [z - off] (boundary (s :: sizes) (S k))
                 = countIn [z - (off + s)] (boundary sizes k)) as Hshift.
    { intros k. unfold countIn, boundary.
      change ((s :: sizes) !! S k) with (sizes !! k). cbn [take fst snd].
      unfold sum_list_Z. cbn [foldr]. rewrite !filter_cons, !filter_nil.
      cbn [fst snd].
      generalize (foldr Z.add 0 (take k sizes)) (default 0 (sizes !! k)).
      intros a b. repeat case_decide; simpl; try done; lia. }
    erewrite (list_fmap_ext _ (λ k, countIn [z - (off + s)] (boundary sizes k)));
      [|intros ? k _; apply Hshift].
    rewrite (IH (off + s)).
    assert (sum_list_Z (s :: sizes) = s + sum_list_Z sizes) as -> by done.
    assert (0 ≤ sum_list_Z sizes) as Hnn.
    { clear -Hs. induction Hs as [|x l Hx Hl IH']; [done|].
      unfold sum_list_Z in *. simpl. lia. }
    unfold countIn, boundary. cbn [take lookup list_lookup fst snd].
    unfold sum_list_Z at 1 2. cbn [foldr default from_option id].
    rewrite filter_cons, filter_nil. cbn [fst snd].
    repeat case_decide; simpl; try done; lia.
Qed.

Lemma counts_partition sizes zs :
  Forall (λ s, 0 ≤ s) sizes → Forall (λ z, 0 ≤ z < sum_list_Z sizes) zs →
  sum_list ((λ k, countIn zs (boundary sizes k)) <$> seq 0 (length sizes)) = length zs.
Proof.
  intros Hs. induction 1 as [|z zs Hz Hzs IH].
  - unfold countIn. simpl. induction (seq 0 (length sizes)) as [|k ks IHk]; [done|].
    by rewrite fmap_cons.
  - erewrite (list_fmap_ext _ (λ k, countIn [z] (boundary sizes k)
                                    + countIn zs (boundary sizes k))%nat);
      [|intros ? k _; apply countIn_cons].
    rewrite sum_list_fmap_add, IH.
    pose proof (in_one_range sizes 0 z Hs) as H1. rewrite Z.sub_0_r in H1.
    rewrite H1. case_decide; simpl; lia.
Qed.

(** X14.  When the population sizes are not negative and every spike index
    lies in [[0, sum(popNumCells))], the counts of the legend entries of
    the populations add up to the number of spikes: every spike is counted
    in one population. *)
Theorem legend_counts_add_up r w zs sizes :
  ints_at w (spkInds r) = Some zs → ints_at w (popNumCells r) = Some sizes →
  Forall (λ s, 0 ≤ s) sizes → Forall (λ z, 0 ≤ z < sum_list_Z sizes) zs →
  ∃ counts,
    mapM (popCount r) (seq 0 (length sizes)) w = (inr counts, w)
    ∧ sum_list counts = length zs.
Proof.
  intros Hz Hs Hnn Hcov.
  exists ((λ k, countIn zs (boundary sizes k)) <$> seq 0 (length sizes)).
  split; [|by apply counts_partition].
  apply mapM_pure. intros k _. by apply popCount_ints.
Qed.

Lemma legend_needs_popColors_witness :
  module_globals true !! "mpatches" = Some (VExt "matplotlib.patches")
  ∧ list_at legend_world (popLabels legend_raster) = Some [VStr "E"; VStr "I"]
  ∧ addLegend (module_globals true) (VBool true) VNone [] legend_raster legend_world
    = (inl (TypeError "not subscriptable"), legend_world).
Proof.
  split; [exact module_binds_mpatches|]. split; [reflexivity|].
  apply (legend_needs_popColors (module_globals true) (VExt "matplotlib.patches")
           (VBool true) [] legend_raster legend_world "E" [VStr "I"]);
    [exact module_binds_mpatches|reflexivity|reflexivity].
Defined.

Lemma legend_missing_colour_witness :
  heap one_colour_world !! 4%nat = Some (ODict [("E", VStr "red")])
  ∧ addLegend (module_globals true) (VBool true) (VRef 4%nat) [] legend_raster
      one_colour_world
    = (inl (KeyError "I"), one_colour_world).
Proof.
  split; [reflexivity|].
  apply (legend_missing_colour (module_globals true) (VExt "matplotlib.patches")
           (VBool true) 4%nat [("E", VStr "red")] [] legend_raster one_colour_world
           ["E"] "I" [] [0; 1; 1; 2] [2; 1]);
    [exact module_binds_mpatches|reflexivity|reflexivity|reflexivity| |
     reflexivity|reflexivity|reflexivity].
  intros n Hin.
  apply elem_of_cons in Hin as [->|Hin]; [by eexists|].
  by apply elem_of_nil in Hin.
Defined.

Lemma legend_without_gui_witness :
  list_at legend_world (popLabels legend_raster) = Some [VStr "E"; VStr "I"]
  ∧ addLegend (module_globals false) (VBool true) (VRef 4%nat) [] legend_raster
      legend_world
    = (inl (NameError "mpatches"), legend_world).
Proof.
  split; [reflexivity|].
  apply (legend_without_gui (VBool true) (VRef 4%nat) [] legend_raster legend_world
           (VStr "E") [VStr "I"]); reflexivity.
Defined.

Lemma legend_counts_add_up_witness :
  ints_at legend_world (spkInds legend_raster) = Some [0; 1; 1; 2]
  ∧ ints_at legend_world (popNumCells legend_raster) = Some [2; 1]
  ∧ ∃ counts,
      mapM (popCount legend_raster) (seq 0 (length [2; 1])) legend_world
        = (inr counts, legend_world)
      ∧ sum_list counts = length [0; 1; 1; 2].
Proof.
  split; [reflexivity|]. split; [reflexivity|].
  apply (legend_counts_add_up legend_raster legend_world [0; 1; 1; 2] [2; 1]);
    [reflexivity|reflexivity| |].
  - repeat (apply Forall_cons_2 || apply Forall_nil_2); lia.
  - repeat (apply Forall_cons_2 || apply Forall_nil_2); unfold sum_list_Z; simpl; lia.
Defined.

(** ** The count of the default population *)

Lemma countIn_perm zs zs' range : zs ≡ₚ zs' → countIn zs range = countIn zs' range.
Proof. intros H. unfold countIn. by rewrite H. Qed.

(** X15.  When no population sizes are given, the one default population
    has the size [len(set(spkInds))], so its legend entry counts the spikes
    whose index lies in [[0, countOfDistinct)], not every spike: cells with
    larger indices are left out of the count. *)
Theorem default_population_count pr a (c : value → Z → value → exn + value) p w o tv zs :
  raster_input w p o tv zs → Arg.orderBy p = VStr "gid" →
  supplied o 2 "popNumCells" = None → Arg.popNumCells p = VNone →
  ∃ n w',
    normalize pr a c p w = (inr n, w')
    ∧ popCount (data n) 0 w'
      = (inr (countIn zs (0, Z.of_nat (countOfDistinct zs))), w').
Proof.
  intros Hin Hgid Hsup Hpn.
  destruct (normalize_gid pr a c p w o tv zs Hin Hgid)
    as (n & w' & Hn & _ & _ & Hzs & Hd & _).
  exists n, w'. split; [done|].
  unfold defaulted, givenPops in Hd. rewrite Hsup, Hpn in Hd. simpl in Hd.
  assert (ints_at w' (popNumCells (data n)) = Some [Z.of_nat (countOfDistinct zs)])
    as Hs by (unfold ints_at; by rewrite Hd).
  rewrite (popCount_ints _ _ _ _ 0%nat Hzs Hs).
  by rewrite (countIn_perm _ _ _ (py_sorted_perm zs)).
Qed.

Lemma default_population_count_witness :
  raster_input sparse_world example_args (OList [VRef 0%nat; VRef 1%nat]) (VRef 0%nat) [5; 7]
  ∧ countIn [5; 7] (0, Z.of_nat (countOfDistinct [5; 7])) = 0%nat
  ∧ ∃ n w',
      normalize no_prepareRaster (VExt "sim") no_cellTag example_args sparse_world
        = (inr n, w')
      ∧ popCount (data n) 0 w'
        = (inr (countIn [5; 7] (0, Z.of_nat (countOfDistinct [5; 7]))), w').
Proof.
  assert (raster_input sparse_world example_args (OList [VRef 0%nat; VRef 1%nat])
            (VRef 0%nat) [5; 7]) as Hin by (by exists 2%nat, (VRef 1%nat)).
  split; [exact Hin|]. split; [reflexivity|].
  apply (default_population_count no_prepareRaster (VExt "sim") no_cellTag example_args
           sparse_world (OList [VRef 0%nat; VRef 1%nat]) (VRef 0%nat) [5; 7]);
    [exact Hin|reflexivity..].
Defined.

(** ** Data fetched from the simulation *)

(** X16.  When [rasterData] is [None] and the data source returns data,
    ordering by index normalizes the fetched data as it would the same data
    had the caller supplied it. *)
Theorem fetched_data_like_supplied pr a (c : value → Z → value → exn + value) p w rd sim w1 :
  Arg.rasterData p = VNone →
  getData pr a p w = (inr (rd, sim), w1) → rd ≠ VNone →
  Arg.orderBy p = VStr "gid" →
  normalize pr a c p w = normalize pr a c (with_rasterData rd p) w1.
Proof.
  intros Hnone Hget Hrd Hgid. unfold normalize.
  rewrite (bind_inr _ _ _ _ _ Hget).
  assert (getData pr a (with_rasterData rd p) w1 = (inr (rd, None), w1)) as Hget'.
  { unfold getData. simpl. by destruct rd. }
  rewrite (bind_inr _ _ _ _ _ Hget'). simpl.
  unfold orderInds. by rewrite Hgid.
Qed.

Lemma fetched_data_like_supplied_witness :
  getData ready_prepareRaster (VExt "sim") Arg.default example_world
  = (inr (VRef 2%nat, Some (VExt "sim")),
     World (heap example_world ++ [OList [VStr "allCells"]]) [])
  ∧ normalize ready_prepareRaster (VExt "sim") no_cellTag Arg.default example_world
    = normalize ready_prepareRaster (VExt "sim") no_cellTag
        (with_rasterData (VRef 2%nat) Arg.default)
        (World (heap example_world ++ [OList [VStr "allCells"]]) []).
Proof.
  split; [reflexivity|].
  apply (fetched_data_like_supplied ready_prepareRaster (VExt "sim") no_cellTag
           Arg.default example_world (VRef 2%nat) (Some (VExt "sim"))
           (World (heap example_world ++ [OList [VStr "allCells"]]) []));
    [reflexivity|reflexivity|discriminate|reflexivity].
Defined.

(** ** The blocks that need [plt] *)

(** X17.  The module does not bind [plt]: the rcParams block sets no
    parameter.  It raises [NameError] at the first entry of a dict that has
    one, and passes over an empty dict. *)
Theorem rcParams_need_plt gui kwargs w l its :
  assoc "rcParams" kwargs = Some (VRef l) → heap w !! l = Some (ODict its) →
  applyRcParams (module_globals gui) kwargs w
  = (if decide (its = []) then inr tt else inl (NameError "plt"), w).
Proof.
  intros Hk Hl. unfold applyRcParams. rewrite Hk.
  rewrite (bind_inr _ _ _ _ _ (read_at _ _ _ Hl)).
  destruct its as [|pv its]; [done|]. cbn [forM_].
  rewrite decide_False by done. apply bind_inl, bind_inl.
  unfold load_global. by rewrite (module_unbound gui "plt") by set_solver.
Qed.

Lemma rcParams_need_plt_witness :
  applyRcParams (module_globals true) rc_kwargs rc_world
  = (inl (NameError "plt"), rc_world).
Proof.
  apply (rcParams_need_plt true rc_kwargs rc_world 0%nat [("font.size", VInt 12)]);
    reflexivity.
Defined.

(** X18.  With [showFig] set, the block raises [NameError] for [plt] before
    it looks at [saveFig]: the figure is neither shown nor saved. *)
Theorem show_needs_plt gui kwargs plotter fig w :
  truthy (get kwargs "showFig" (VBool false)) w = (inr true, w) →
  showOrSave (module_globals gui) kwargs plotter fig w = (inl (NameError "plt"), w).
Proof.
  intros Hshow. unfold showOrSave. rewrite (bind_inr _ _ _ _ _ Hshow).
  apply bind_inl, bind_inl.
  unfold load_global. by rewrite (module_unbound gui "plt") by set_solver.
Qed.

Lemma show_needs_plt_witness :
  get show_kwargs "saveFig" (VBool false) = VBool true
  ∧ showOrSave (module_globals true) show_kwargs (VExt "plotter") (VExt "fig") example_world
    = (inl (NameError "plt"), example_world).
Proof.
  split; [reflexivity|].
  apply (show_needs_plt true show_kwargs (VExt "plotter") (VExt "fig") example_world).
  reflexivity.
Defined.

(** ** The synchrony block *)

Lemma mapM_raises {A B} (f : A → M B) (g : A → B) xs e w :
  (∀ x, x ∈ xs → f x w = (inr (g x), w) ∨ f x w = (inl e, w)) →
  (∃ x, x ∈ xs ∧ f x w = (inl e, w)) →
  mapM f xs w = (inl e, w).
Proof.
  induction xs as [|x xs IH]; intros Hf (y & Hy & Hfy).
  - by apply elem_of_nil in Hy.
  - cbn [mapM]. destruct (Hf x ltac:(left)) as [Hx|Hx].
    + rewrite (bind_inr _ _ _ _ _ Hx). apply bind_inl.
      apply IH; [intros z Hz; apply Hf; by right|].
      apply elem_of_cons in Hy as [->|Hy]; [congruence|by exists y].
    + by apply bind_inl.
Qed.

Lemma subscript_list_at w v xs i :
  list_at w v = Some xs →
  subscript v i w
  = (match xs !! i with Some x => inr x | None => inl IndexError end, w).
Proof.
  unfold list_at. destruct v; try done.
  destruct (heap w !! l) as [o|] eqn:Hl; [|done].
  unfold subscript. rewrite (bind_inr _ _ _ _ _ (read_at _ _ _ Hl)).
  destruct o; intros [= ->]; by destruct (xs !! i).
Qed.

(** X19.  The synchrony block reads [spkTimes] at the positions a cell has
    in [spkInds].  When a cell has a position at which there is no time,
    because the times are fewer than the indices, collecting its spike times
    raises [IndexError]. *)
Theorem sync_times_out_of_range r w times zs i c :
  list_at w (spkTimes r) = Some times → ints_at w (spkInds r) = Some zs →
  zs !! i = Some c → (length times ≤ i)%nat →
  spikeTimesOf r c w = (inl IndexError, w).
Proof.
  intros Ht Hz Hi Hlen. unfold spikeTimesOf.
  rewrite (bind_inr _ _ _ _ _ (int_items_ints_at _ _ _ Hz)).
  apply (mapM_raises _ (λ j, default VNone (times !! j))).
  - intros j _. rewrite (subscript_list_at _ _ _ j Ht).
    destruct (times !! j); [by left|by right].
  - exists i. split.
    + apply list_elem_of_fmap. exists (i, c). split; [done|].
      apply list_elem_of_filter. split; [done|].
      apply list_elem_of_lookup. exists i. by rewrite list_lookup_imap, Hi.
    + rewrite (subscript_list_at _ _ _ i Ht).
      by rewrite (lookup_ge_None_2 times i Hlen).
Qed.

Lemma sync_times_out_of_range_witness :
  list_at short_times_world (spkTimes example_raster)
  = Some [VFloat (1 # 10); VFloat (3 # 10)]
  ∧ ints_at short_times_world (spkInds example_raster) = Some [2; 0; 1]
  ∧ spikeTimesOf example_raster 1 short_times_world = (inl IndexError, short_times_world).
Proof.
  split; [reflexivity|]. split; [reflexivity|].
  apply (sync_times_out_of_range example_raster short_times_world
           [VFloat (1 # 10); VFloat (3 # 10)] [2; 0; 1] 2%nat 1);
    [reflexivity|reflexivity|reflexivity|simpl; lia].
Defined.

(** X20.  Were [linewidth] bound, the synchrony block would draw, for as
    many times as indices and a list [cellInds] of the distinct cells, one
    dotted gray line per spike time, each from 0 to the number of cells. *)
Theorem sync_lines_one_per_time G lw ci r w times zs cells :
  G !! "linewidth" = Some lw →
  list_at w (spkTimes r) = Some times → ints_at w (spkInds r) = Some zs →
  ints_at w ci = Some cells → NoDup cells → (∀ z, z ∈ zs → z ∈ cells) →
  length times = length zs →
  ∃ ms,
    addSyncLines G (VBool true) ci r w
    = (inr tt, World (heap w)
         (rendered w ++ ((λ t, Vlines t 0 (length cells) "gray" "dotted" lw) <$> ms)))
    ∧ ms ≡ₚ times.
Proof.
  intros HG Ht Hz Hci Hnd Hcov Hlen.
  exists (syncMarkers times zs cells). split; [|by apply syncMarkers_perm].
  apply (addSyncLines_bound G lw HG); [done..|]. by rewrite Hlen.
Qed.

Lemma sync_lines_one_per_time_witness :
  bound_globals !! "linewidth" = Some (VInt 2)
  ∧ ∃ ms,
      addSyncLines bound_globals (VBool true) (VRef 1%nat) example_raster example_world
      = (inr tt, World (heap example_world)
           (rendered example_world
            ++ ((λ t, Vlines t 0 (length [2; 0; 1]) "gray" "dotted" (VInt 2)) <$> ms)))
      ∧ ms ≡ₚ example_times.
Proof.
  split; [by vm_compute|].
  apply (sync_lines_one_per_time bound_globals (VInt 2) (VRef 1%nat) example_raster
           example_world example_times [2; 0; 1] [2; 0; 1]);
    [by vm_compute|reflexivity|reflexivity|reflexivity| |done|reflexivity].
  apply (bool_decide_unpack (NoDup [2; 0; 1])). by vm_compute.
Defined.

(** ** The whole body, were its global names bound *)

Lemma list_at_heap w w' v : heap w' = heap w → list_at w' v = list_at w v.
Proof. intros H. unfold list_at. by rewrite H. Qed.

Lemma ints_at_heap w w' v : heap w' = heap w → ints_at w' v = ints_at w v.
Proof. intros H. unfold ints_at. by rewrite (list_at_heap w w'). Qed.

(** In a session that binds the names the body reads as globals, a call
    with supplied data, ordered by index, gets as far as the scatter: the
    blocks after it run in the heap normalization leaves, with the plotter
    made, its attributes set and one scatter drawn, of the times object the
    caller gave and of the sorted indices. *)
Lemma plotRaster_scatter pr a (c : value → Z → value → exn + value)
    G p w o tv zs sp t xl yl s mk lw :
  G !! "ScatterPlotter" = Some sp → G !! "title" = Some t → G !! "xlabel" = Some xl →
  G !! "ylabel" = Some yl → G !! "s" = Some s → G !! "marker" = Some mk →
  G !! "linewidth" = Some lw →
  raster_input w p o tv zs → Arg.orderBy p = VStr "gid" →
  ∃ n w1,
    normalize pr a c p w = (inr n, w1)
    ∧ ints_at w1 (spkInds (data n)) = Some (py_sorted zs)
    ∧ defaulted w1 (givenPops p o).2 (popLabels (data n)) [VStr "Population"]
    ∧ plotRaster pr a c G p w
      = (addSyncLines G (Arg.syncLines p) (cellInds n) (data n) ;;;
         addLegend G (Arg.legend p) (Arg.popColors p) (Arg.kwargs p) (data n) ;;;
         applyRcParams G (Arg.kwargs p) ;;;
         showOrSave G (Arg.kwargs p) (VExt "plotter") (VExt "fig") ;;;
         returnPlotter <- truthy (Arg.returnPlotter p) ;;
         ret (if negb returnPlotter then VExt "fig" else VExt "plotter"))
          (World (heap w1)
             (rendered w ++ [NewPlotter; CreateFig; GetAxis (Arg.axis p);
                             SetAttributes t xl yl;
                             Scatter tv (spkInds (data n)) s mk lw])).
Proof.
  intros Hsp Ht Hxl Hyl Hs Hmk Hlw (l & iv & Hrd & Hl & Htv & Hiv & Hz) Hgid.
  destruct (prepareData_supplied pr a p w l o tv iv zs Hrd Hl Htv Hiv Hz)
    as (r & ci & wa & Hprep & Hun & Hrt & Hri & _ & Hpl & _).
  assert (ints_at wa (spkInds r) = Some zs) as Hza.
  { rewrite Hri. eapply ints_at_prefix; [apply Hun|done]. }
  rewrite normalize_prepareData, plotRaster_prepareData, Hprep. cbn [fst snd].
  rewrite (orderInds_ints _ _ _ _ _ _ Hza), (ordered_gid c None _ zs Hgid).
  eexists _, _. split; [reflexivity|]. split; [apply ints_at_new|].
  split.
  { cbn [data popLabels]. eapply defaulted_prefix; [|done]. by apply prefix_app_r. }
  assert (createPlotter G (Arg.axis p) wa
          = (inr (VExt "plotter", VExt "fig",
                  if is_none (Arg.axis p) then VExt "axis" else Arg.axis p),
             World (heap wa)
               (rendered wa ++ [NewPlotter; CreateFig; GetAxis (Arg.axis p);
                                SetAttributes t xl yl]))) as ->.
  { unfold createPlotter, load_global. rewrite Hsp, Ht, Hxl, Hyl.
    unfold bind, emit, ret. simpl. by rewrite <-!app_assoc. }
  cbn [fst snd].
  match goal with
  | |- bind _ _ ?w2 = _ =>
      assert (ints_at w2 (spkInds r) = Some zs) as Hz2
        by (by rewrite (ints_at_heap wa w2))
  end.
  rewrite (bind_inr _ _ _ _ _ (eq_trans (orderInds_ints c None _ _ _ _ Hz2)
                                 (f_equal (λ x, match x with
                                                | inr zs' => _
                                                | inl e => _
                                                end) (ordered_gid c None _ zs Hgid)))).
  match goal with
  | |- bind (plotScatter G ?r') _ ?w3 = _ =>
      assert (plotScatter G r' w3
              = (inr tt, World (heap w3)
                   (rendered w3 ++ [Scatter (spkTimes r') (spkInds r') s mk lw])))
        as Hscatter
        by (unfold plotScatter, load_global; by rewrite Hs, Hmk, Hlw)
  end.
  rewrite (bind_inr _ _ _ _ _ Hscatter).
  cbn [heap rendered spkTimes spkInds data cellInds].
  destruct Hun as [_ ->]. by rewrite Hrt, <-!app_assoc.
Qed.

(** X21.  In such a session, a call with supplied data, ordered by index,
    without synchrony lines, legend or keyword arguments, returns the
    figure, or the plotter when [returnPlotter] is set, and draws one
    scatter, of the times object the caller gave and of the sorted
    indices. *)
Theorem plotRaster_draws_scatter pr a (c : value → Z → value → exn + value)
    G p w o tv zs sp t xl yl s mk lw (b : bool) :
  G !! "ScatterPlotter" = Some sp → G !! "title" = Some t → G !! "xlabel" = Some xl →
  G !! "ylabel" = Some yl → G !! "s" = Some s → G !! "marker" = Some mk →
  G !! "linewidth" = Some lw →
  raster_input w p o tv zs → Arg.orderBy p = VStr "gid" →
  Arg.syncLines p = VBool false → Arg.legend p = VBool false → Arg.kwargs p = [] →
  Arg.returnPlotter p = VBool b →
  ∃ n w1,
    normalize pr a c p w = (inr n, w1)
    ∧ ints_at w1 (spkInds (data n)) = Some (py_sorted zs)
    ∧ plotRaster pr a c G p w
      = (inr (if b then VExt "plotter" else VExt "fig"),
         World (heap w1)
           (rendered w ++ [NewPlotter; CreateFig; GetAxis (Arg.axis p);
                           SetAttributes t xl yl;
                           Scatter tv (spkInds (data n)) s mk lw])).
Proof.
  intros Hsp Ht Hxl Hyl Hs Hmk Hlw Hin Hgid Hsync Hleg Hkw Hret.
  destruct (plotRaster_scatter pr a c G p w o tv zs sp t xl yl s mk lw)
    as (n & w1 & Hn & Hzs & _ & ->); try done.
  exists n, w1. split; [done|]. split; [done|].
  unfold addSyncLines, addLegend, applyRcParams, showOrSave, get.
  rewrite Hsync, Hleg, Hkw, Hret.
  unfold bind, ret, truthy. cbn [assoc negb]. by destruct b.
Qed.

Lemma plotRaster_draws_scatter_witness :
  bound_globals !! "title" = Some (VStr "Raster")
  ∧ ∃ n w1,
      normalize no_prepareRaster (VExt "sim") no_cellTag no_legend_args example_world
        = (inr n, w1)
      ∧ ints_at w1 (spkInds (data n)) = Some (py_sorted [2; 0; 1])
      ∧ plotRaster no_prepareRaster (VExt "sim") no_cellTag bound_globals no_legend_args
          example_world
        = (inr (VExt "fig"),
           World (heap w1)
             (rendered example_world
              ++ [NewPlotter; CreateFig; GetAxis VNone;
                  SetAttributes (VStr "Raster") (VStr "Time (ms)") (VStr "Cells");
                  Scatter (VRef 0%nat) (spkInds (data n)) (VInt 5) (VStr "|") (VInt 2)])).
Proof.
  split; [by vm_compute|].
  apply (plotRaster_draws_scatter no_prepareRaster (VExt "sim") no_cellTag bound_globals
           no_legend_args example_world (OTuple [VRef 0%nat; VRef 1%nat]) (VRef 0%nat)
           [2; 0; 1] (VExt "ScatterPlotter") (VStr "Raster") (VStr "Time (ms)")
           (VStr "Cells") (VInt 5) (VStr "|") (VInt 2) false);
    try (by vm_compute).
  by exists 2%nat, (VRef 1%nat).
Defined.

(** X22.  In such a session, a call with supplied data that leaves
    [legend], [popColors] and the population labels at their defaults
    raises [TypeError] at the legend, after the scatter is drawn: the
    default [popColors=None] is subscripted with the default label. *)
Theorem default_legend_raises pr a (c : value → Z → value → exn + value)
    G p w o tv zs sp t xl yl s mk lw m :
  G !! "ScatterPlotter" = Some sp → G !! "title" = Some t → G !! "xlabel" = Some xl →
  G !! "ylabel" = Some yl → G !! "s" = Some s → G !! "marker" = Some mk →
  G !! "linewidth" = Some lw → G !! "mpatches" = Some m →
  raster_input w p o tv zs → Arg.orderBy p = VStr "gid" →
  Arg.syncLines p = VBool false → Arg.legend p = VBool true →
  Arg.popColors p = VNone →
  supplied o 3 "popLabels" = None → Arg.popLabels p = VNone →
  ∃ n w1,
    normalize pr a c p w = (inr n, w1)
    ∧ plotRaster pr a c G p w
      = (inl (TypeError "not subscriptable"),
         World (heap w1)
           (rendered w ++ [NewPlotter; CreateFig; GetAxis (Arg.axis p);
                           SetAttributes t xl yl;
                           Scatter tv (spkInds (data n)) s mk lw])).
Proof.
  intros Hsp Ht Hxl Hyl Hs Hmk Hlw Hm Hin Hgid Hsync Hleg Hcol Hsup Hpl.
  destruct (plotRaster_scatter pr a c G p w o tv zs sp t xl yl s mk lw)
    as (n & w1 & Hn & _ & Hd & ->); try done.
  exists n, w1. split; [done|].
  unfold defaulted, givenPops in Hd. rewrite Hsup, Hpl in Hd. simpl in Hd.
  unfold addSyncLines. rewrite Hsync, Hleg, Hcol.
  unfold bind at 1 2, truthy at 1, ret at 1 2.
  apply bind_inl. unfold addLegend.
  unfold bind at 1, truthy, ret at 1.
  erewrite bind_inr; [|apply items_list_at; by rewrite (list_at_heap w1)].
  apply bind_inl. cbn [imap mapM]. apply bind_inl.
  unfold legendHandle, load_global. by rewrite Hm.
Qed.

Lemma default_legend_raises_witness :
  Arg.legend example_args = VBool true ∧ Arg.popColors example_args = VNone
  ∧ ∃ n w1,
      normalize no_prepareRaster (VExt "sim") no_cellTag example_args example_world
        = (inr n, w1)
      ∧ plotRaster no_prepareRaster (VExt "sim") no_cellTag bound_globals example_args
          example_world
        = (inl (TypeError "not subscriptable"),
           World (heap w1)
             (rendered example_world
              ++ [NewPlotter; CreateFig; GetAxis (Arg.axis example_args);
                  SetAttributes (VStr "Raster") (VStr "Time (ms)") (VStr "Cells");
                  Scatter (VRef 0%nat) (spkInds (data n)) (VInt 5) (VStr "|") (VInt 2)])).
Proof.
  split; [reflexivity|]. split; [reflexivity|].
  apply (default_legend_raises no_prepareRaster (VExt "sim") no_cellTag bound_globals
           example_args example_world (OTuple [VRef 0%nat; VRef 1%nat]) (VRef 0%nat)
           [2; 0; 1] (VExt "ScatterPlotter") (VStr "Raster") (VStr "Time (ms)")
           (VStr "Cells") (VInt 5) (VStr "|") (VInt 2) (VExt "matplotlib.patches"));
    try (by vm_compute).
  by exists 2%nat, (VRef 1%nat).
Defined.

(** ** Parameters read on one path only *)

(** X23.  With supplied data, [timeRange] changes nothing: it is read on
    the path that fetches the data only, and no event is left out for its
    time. *)
Theorem timeRange_only_forwarded pr a (c : value → Z → value → exn + value) G p tr :
  Arg.rasterData p ≠ VNone →
  plotRaster pr a c G (with_timeRange tr p) = plotRaster pr a c G p
  ∧ normalize pr a c (with_timeRange tr p) = normalize pr a c p.
Proof.
  intros Hrd. unfold plotRaster, normalize, getData. simpl.
  by destruct (Arg.rasterData p).
Qed.

Lemma timeRange_only_forwarded_witness :
  Arg.rasterData example_args ≠ VNone
  ∧ plotRaster no_prepareRaster (VExt "sim") no_cellTag bound_globals
      (with_timeRange (VRef 0%nat) example_args)
    = plotRaster no_prepareRaster (VExt "sim") no_cellTag bound_globals example_args
  ∧ normalize no_prepareRaster (VExt "sim") no_cellTag
      (with_timeRange (VRef 0%nat) example_args)
    = normalize no_prepareRaster (VExt "sim") no_cellTag example_args.
Proof.
  split; [discriminate|].
  apply (timeRange_only_forwarded no_prepareRaster (VExt "sim") no_cellTag bound_globals
           example_args (VRef 0%nat)).
  discriminate.
Defined.

(** ** A raster without a spike *)

(** X24.  Supplied data without a spike is normalized under every
    [orderBy]: no key is computed, so [sim] is not needed.  The result has
    no index and no cell, and a default population of size 0. *)
Theorem no_spikes_any_order pr a (c : value → Z → value → exn + value) p w o tv :
  raster_input w p o tv [] →
  supplied o 2 "popNumCells" = None → Arg.popNumCells p = VNone →
  ∃ n w',
    normalize pr a c p w = (inr n, w')
    ∧ unchanged w w' ∧ spkTimes (data n) = tv
    ∧ ints_at w' (spkInds (data n)) = Some []
    ∧ ints_at w' (cellInds n) = Some []
    ∧ ints_at w' (popNumCells (data n)) = Some [0].
Proof.
  intros (l & iv & Hrd & Hl & Htv & Hiv & Hz) Hsup Hpn.
  destruct (normalize_supplied pr a c p w l o tv iv [] [] Hrd Hl Htv Hiv Hz)
    as (n & w' & Hn & Hun & Ht & Hzs & Hd & _ & Hci).
  { unfold ordered. by destruct (is_str (Arg.orderBy p) "gid"). }
  exists n, w'. do 4 (split; [done|]). split; [done|].
  unfold defaulted, givenPops in Hd. rewrite Hsup, Hpn in Hd. simpl in Hd.
  unfold ints_at. by rewrite Hd.
Qed.

Lemma no_spikes_any_order_witness :
  Arg.orderBy by_pop_args = VStr "pop"
  ∧ ∃ n w',
      normalize no_prepareRaster (VExt "sim") no_cellTag by_pop_args no_spikes_world
        = (inr n, w')
      ∧ unchanged no_spikes_world w' ∧ spkTimes (data n) = VRef 0%nat
      ∧ ints_at w' (spkInds (data n)) = Some []
      ∧ ints_at w' (cellInds n) = Some []
      ∧ ints_at w' (popNumCells (data n)) = Some [0].
Proof.
  split; [reflexivity|].
  apply (no_spikes_any_order no_prepareRaster (VExt "sim") no_cellTag by_pop_args
           no_spikes_world (OTuple [VRef 0%nat; VRef 1%nat]) (VRef 0%nat));
    [|reflexivity|reflexivity].
  by exists 2%nat, (VRef 1%nat).
Defined.

(** * The effects of a call *)

Lemma extended_refl w : extended w w.
Proof. by split. Qed.

Lemma extended_trans w1 w2 w3 : extended w1 w2 → extended w2 w3 → extended w1 w3.
Proof. intros [H1 H2] [H3 H4]. split; by etrans. Qed.

Lemma unchanged_extended w w' : unchanged w w' → extended w w'.
Proof. intros [H1 H2]. split; [done|]. by rewrite H2. Qed.

Lemma framed_appending {A} (m : M A) : framed m → appending m.
Proof. intros H w res w' Hm. by eapply unchanged_extended, H. Qed.

Lemma readonly_appending {A} (m : M A) : readonly m → appending m.
Proof. intros H w res w' Hm. rewrite (H _ _ _ Hm). apply extended_refl. Qed.

Lemma appending_emit c : appending (emit c).
Proof.
  intros w res w' [= _ <-]. split; simpl; [done|]. by apply prefix_app_r.
Qed.

Lemma appending_bind {A B} (m : M A) (k : A → M B) :
  appending m → (∀ a, appending (k a)) → appending (bind m k).
Proof.
  intros Hm Hk w res w'. unfold bind.
  destruct (m w) as [[e|a] w1] eqn:E.
  - intros [= _ <-]. by eapply Hm.
  - intros Hka. eapply extended_trans; [by eapply Hm|by eapply Hk].
Qed.

Lemma appending_forM_ {A} (body : A → M unit) xs :
  (∀ x, appending (body x)) → appending (forM_ xs body).
Proof.
  intros Hb. induction xs as [|x xs IH]; simpl.
  - apply readonly_appending, readonly_ret.
  - apply appending_bind; [done|]. by intros _.
Qed.

Lemma readonly_items v : readonly (items v).
Proof. readonly_op @items. Qed.

Lemma readonly_legendKwargs kwargs : readonly (legendKwargs kwargs).
Proof. readonly_op legendKwargs. Qed.

Lemma readonly_spikeTimesOf r c : readonly (spikeTimesOf r c).
Proof. readonly_op spikeTimesOf. Qed.

Lemma readonly_popCount r i : readonly (popCount r i).
Proof. readonly_op popCount. Qed.

Lemma readonly_legendHandle G popColors r i pop : readonly (legendHandle G popColors r i pop).
Proof.
  unfold legendHandle. apply readonly_bind; [apply readonly_load_global|]. intros _.
  destruct pop; try apply readonly_raise.
  apply readonly_bind; [apply readonly_getitem|]. intros color.
  apply readonly_bind; [apply readonly_popCount|]. intros n. apply readonly_ret.
Qed.

Lemma appending_createPlotter G axis : appending (createPlotter G axis).
Proof.
  unfold createPlotter.
  repeat (apply appending_bind;
          [first [apply appending_emit|apply readonly_appending, readonly_load_global]
          |intros ?]).
  apply readonly_appending, readonly_ret.
Qed.

Lemma appending_plotScatter G r : appending (plotScatter G r).
Proof.
  unfold plotScatter.
  repeat (apply appending_bind; [apply readonly_appending, readonly_load_global|intros ?]).
  apply appending_emit.
Qed.

Lemma appending_addSyncLines G syncLines cellInds r :
  appending (addSyncLines G syncLines cellInds r).
Proof.
  unfold addSyncLines.
  apply appending_bind; [apply readonly_appending, readonly_truthy|].
  intros [|]; [|apply readonly_appending, readonly_ret].
  apply appending_bind; [apply readonly_appending, readonly_int_items|]. intros cells.
  apply appending_forM_. intros c.
  apply appending_bind; [apply readonly_appending, readonly_spikeTimesOf|]. intros ts.
  apply appending_forM_. intros t.
  apply appending_bind; [apply readonly_appending, readonly_py_len|]. intros n.
  apply appending_bind; [apply readonly_appending, readonly_load_global|]. intros lw.
  apply appending_emit.
Qed.

Lemma appending_addLegend G legend popColors kwargs r :
  appending (addLegend G legend popColors kwargs r).
Proof.
  unfold addLegend.
  apply appending_bind; [apply readonly_appending, readonly_truthy|].
  intros [|]; [|apply readonly_appending, readonly_ret].
  apply appending_bind; [apply readonly_appending, readonly_items|]. intros pops.
  apply appending_bind.
  { apply readonly_appending, readonly_mapM. intros ip. apply readonly_legendHandle. }
  intros hs.
  apply appending_bind; [apply readonly_appending, readonly_legendKwargs|]. intros kw.
  destruct (assoc "handles" kw); [apply readonly_appending, readonly_raise|].
  apply appending_emit.
Qed.

Lemma appending_applyRcParams G kwargs : appending (applyRcParams G kwargs).
Proof.
  unfold applyRcParams.
  destruct (assoc "rcParams" kwargs) as [v|]; [|apply readonly_appending, readonly_ret].
  destruct v; try apply readonly_appending, readonly_raise.
  apply appending_bind; [apply readonly_appending, readonly_read|]. intros o.
  destruct o; try apply readonly_appending, readonly_raise.
  apply appending_forM_. intros pv.
  apply appending_bind; [apply readonly_appending, readonly_load_global|]. intros _.
  apply appending_emit.
Qed.

Lemma appending_showOrSave G kwargs plotter fig : appending (showOrSave G kwargs plotter fig).
Proof.
  unfold showOrSave.
  apply appending_bind; [apply readonly_appending, readonly_truthy|]. intros showFig.
  apply appending_bind.
  { destruct showFig; [|apply readonly_appending, readonly_ret].
    apply appending_bind; [apply readonly_appending, readonly_load_global|]. intros _.
    apply appending_emit. }
  intros _.
  apply appending_bind; [apply readonly_appending, readonly_truthy|]. intros saveFig.
  destruct saveFig; [apply appending_emit|apply readonly_appending, readonly_ret].
Qed.

Section Effects.

Variable prepareRaster : value → value → value → value → value → M value.
Variable ambient_sim : value.
Variable cellTag : value → Z → value → exn + value.

(** What follows [getData] in the body only creates containers and makes
    further rendering calls. *)
Lemma appending_body G p (src : value * option value) :
  appending
    (r <- useData src.1 (Arg.popNumCells p) (Arg.popLabels p) ;;
     r <- ensurePops r ;;
     cellInds <- defineCellInds r ;;
     pfa <- createPlotter G (Arg.axis p) ;;
     r <- orderInds cellTag src.2 (Arg.orderBy p) r ;;
     plotScatter G r ;;;
     addSyncLines G (Arg.syncLines p) cellInds r ;;;
     addLegend G (Arg.legend p) (Arg.popColors p) (Arg.kwargs p) r ;;;
     applyRcParams G (Arg.kwargs p) ;;;
     showOrSave G (Arg.kwargs p) pfa.1.1 pfa.1.2 ;;;
     returnPlotter <- truthy (Arg.returnPlotter p) ;;
     ret (if negb returnPlotter then pfa.1.2 else pfa.1.1)).
Proof.
  apply appending_bind; [apply framed_appending, framed_useData|]. intros r.
  apply appending_bind; [apply framed_appending, framed_ensurePops|]. intros r1.
  apply appending_bind; [apply framed_appending, framed_defineCellInds|]. intros ci.
  apply appending_bind; [apply appending_createPlotter|]. intros pfa.
  apply appending_bind; [apply framed_appending, framed_orderInds|]. intros r2.
  apply appending_bind; [apply appending_plotScatter|]. intros _.
  apply appending_bind; [apply appending_addSyncLines|]. intros _.
  apply appending_bind; [apply appending_addLegend|]. intros _.
  apply appending_bind; [apply appending_applyRcParams|]. intros _.
  apply appending_bind; [apply appending_showOrSave|]. intros _.
  apply appending_bind; [apply readonly_appending, readonly_truthy|]. intros b.
  apply readonly_appending, readonly_ret.
Qed.

(** The data blocks that run before the plotter is created make no
    rendering call and modify no container. *)
Lemma prepareData_unchanged p w r wd :
  prepareData prepareRaster ambient_sim p w = (r, wd) →
  unchanged (getData prepareRaster ambient_sim p w).2 wd.
Proof.
  unfold prepareData. unfold bind at 1.
  destruct (getData _ _ p w) as [[e|src] w0]; simpl.
  - intros [= _ <-]. apply unchanged_refl.
  - revert w0 r wd.
    change (framed (r <- useData src.1 (Arg.popNumCells p) (Arg.popLabels p) ;;
                    r <- ensurePops r ;;
                    cellInds <- defineCellInds r ;;
                    ret (src.2, r, cellInds))).
    auto 20 using framed_useData, framed_ensurePops, framed_defineCellInds with framed.
Qed.


End Effects.



(** * Synchrony lines in a session that binds the names *)



(** * A legend keyword given twice *)

(** X25.  When [legendKwargs] has a ['handles'] key, the legend block
    raises [TypeError] at the call of [axis.legend], which would get the
    keyword twice; the handles have been made, and no legend is drawn. *)
Theorem legend_duplicate_handles G m legend lc colors kwargs kw v r w names zs sizes :
  G !! "mpatches" = Some m →
  truthy legend w = (inr true, w) →
  legendKwargs kwargs w = (inr kw, w) → assoc "handles" kw = Some v →
  heap w !! lc = Some (ODict colors) →
  (∀ name, name ∈ names → is_Some (assoc name colors)) →
  list_at w (popLabels r) = Some (VStr <$> names) →
  ints_at w (spkInds r) = Some zs →
  ints_at w (popNumCells r) = Some sizes →
  addLegend G legend (VRef lc) kwargs r w
  = (inl (TypeError "got multiple values for keyword argument 'handles'"), w).
Proof.
  intros Hm Hon Hkw Hh Hlc Hcol Hpl Hz Hs. unfold addLegend.
  rewrite (bind_inr _ _ _ _ _ Hon).
  rewrite (bind_inr _ _ _ _ _ (items_list_at _ _ _ Hpl)).
  erewrite bind_inr; last first.
  { apply (mapM_pure _
             (λ ip : nat * value,
                match ip.2 with
                | VStr n => Patch (default VNone (assoc n colors))
                                  (legend_label n (countIn zs (boundary sizes ip.1)))
                | _ => Patch VNone EmptyString
                end)).
    intros [k x] Hin. apply list_elem_of_lookup in Hin as [i Hi].
    rewrite list_lookup_imap, list_lookup_fmap in Hi.
    destruct (names !! i) as [n|] eqn:En; [|done]. injection Hi as <- <-.
    destruct (Hcol n) as [col Hc]; [by eapply list_elem_of_lookup_2|].
    cbn [fst snd]. rewrite Hc.
    by apply (legendHandle_ok G m _ colors _ _ zs sizes). }
  by rewrite (bind_inr _ _ _ _ _ Hkw), Hh.
Qed.

Lemma legend_duplicate_handles_witness :
  legendKwargs handles_kwargs handles_world = (inr [("handles", VNone)], handles_world)
  ∧ addLegend (module_globals true) (VBool true) (VRef 4%nat) handles_kwargs legend_raster
      handles_world
    = (inl (TypeError "got multiple values for keyword argument 'handles'"),
       handles_world).
Proof.
  split; [reflexivity|].
  apply (legend_duplicate_handles (module_globals true) (VExt "matplotlib.patches")
           (VBool true) 4%nat [("E", VStr "red"); ("I", VStr "blue")] handles_kwargs
           [("handles", VNone)] VNone legend_raster handles_world ["E"; "I"]
           [0; 1; 1; 2] [2; 1]);
    [exact module_binds_mpatches|reflexivity|reflexivity|reflexivity|reflexivity| |
     reflexivity|reflexivity|reflexivity].
  intros name Hin.
  apply elem_of_cons in Hin as [->|Hin]; [by eexists|].
  apply elem_of_cons in Hin as [->|Hin]; [by eexists|].
  by apply elem_of_nil in Hin.
Defined.
